(** * pyms-agilent: the XML metadata core ([pyms_agilent/xml_parser/core.py])

    A shallow embedding of [make_from_element], [XMLList], [_get_from_enum]
    and [tag2dict], together with the parts of Python, [re] and
    [lxml.objectify] those functions call, and the properties of the
    specification that concern them.

    Strings are ASCII strings; Python exceptions are an explicit error
    result; the mutable list and the output dictionary are passed
    explicitly. *)

From Stdlib Require Import ZArith String Ascii List Lia Bool.
From stdpp Require Import base tactics option list strings gmap pretty.

Local Open Scope string_scope.
Local Open Scope Z_scope.
Local Open Scope list_scope.

(** ** Python: exceptions and builtin conversions *)

Module Py.

(** The exceptions the modelled code can raise.  [OutsideModel] is not a
    Python exception: it marks an argument of a library call ([re.sub],
    [findall]) that lies outside the fragment of that library embedded
    here. *)
Inductive exn : Type :=
| TypeError
| ValueError
| AttributeError
| IndexError
| OverflowError
| FileNotFoundError
| OutsideModel.

Inductive result (A : Type) : Type :=
| Ok (a : A)
| Raise (e : exn).
Arguments Ok {A} a.
Arguments Raise {A} e.

Definition is_ok {A} (r : result A) : bool :=
  match r with Ok _ => true | Raise _ => false end.

#[global] Instance result_ret : MRet result := fun A a => Ok a.
#[global] Instance result_bind : MBind result :=
  fun A B f m => match m with Ok a => f a | Raise e => Raise e end.

#[global] Instance result_fmap : FMap result :=
  fun A B f m => match m with Ok a => Ok (f a) | Raise e => Raise e end.

#[global] Instance exn_eq_dec : EqDecision exn.
Proof. solve_decision. Defined.

(** [mapM f l]: [[f(x) for x in l]], stopping at the first exception. *)
Fixpoint mapM {A B} (f : A -> result B) (l : list A) : result (list B) :=
  match l with
  | [] => Ok []
  | x :: l' =>
      match f x with
      | Ok y => match mapM f l' with Ok ys => Ok (y :: ys) | Raise e => Raise e end
      | Raise e => Raise e
      end
  end.

(** Computations on a mutable object (a list, the file system log): the
    object is threaded through, and a raised exception leaves the changes
    made before it. *)
Definition M (S A : Type) : Type := S -> result A * S.

Definition ret {S A} (a : A) : M S A := fun s => (Ok a, s).

Definition bind {S A B} (m : M S A) (k : A -> M S B) : M S B :=
  fun s =>
    match m s with
    | (Ok a, s') => k a s'
    | (Raise e, s') => (Raise e, s')
    end.

Definition lift {S A} (r : result A) : M S A := fun s => (r, s).

(** Character classes (ASCII). *)
Definition code (c : ascii) : N := N_of_ascii c.
Definition in_range (lo hi : N) (c : ascii) : bool :=
  ((lo <=? code c) && (code c <=? hi))%N.
Definition is_upper : ascii -> bool := in_range 65 90.
Definition is_lower : ascii -> bool := in_range 97 122.
Definition is_digit : ascii -> bool := in_range 48 57.
Definition is_newline (c : ascii) : bool := (code c =? 10)%N.
(** The whitespace [int] ignores around a literal: TAB..CR and the
    space. *)
Definition is_space (c : ascii) : bool :=
  in_range 9 13 c || (code c =? 32)%N.

Definition to_lower (c : ascii) : ascii :=
  if is_upper c then ascii_of_N (code c + 32) else c.

(** [str.lower] *)
Fixpoint lower (s : string) : string :=
  match s with
  | EmptyString => EmptyString
  | String c r => String (to_lower c) (lower r)
  end.

Fixpoint lstrip (s : string) : string :=
  match s with
  | String c r => if is_space c then lstrip r else s
  | EmptyString => EmptyString
  end.

Fixpoint rstrip (s : string) : string :=
  match s with
  | EmptyString => EmptyString
  | String c r =>
      match rstrip r with
      | EmptyString => if is_space c then EmptyString else String c EmptyString
      | r' => String c r'
      end
  end.

(** [str.strip] *)
Definition strip (s : string) : string := rstrip (lstrip s).

Definition digit_val (c : ascii) : Z := Z.of_N (code c) - 48.

(** The digit part of a base-10 integer literal: digits, with single
    underscores allowed between two digits. *)
Fixpoint parse_digits (acc : Z) (after_digit : bool) (s : string) : option Z :=
  match s with
  | EmptyString => if after_digit then Some acc else None
  | String c r =>
      if is_digit c then parse_digits (10 * acc + digit_val c) true r
      else if (code c =? 95)%N && after_digit then
        match r with
        | String d _ => if is_digit d then parse_digits acc false r else None
        | EmptyString => None
        end
      else None
  end.

(** [int(s)] for a [str] [s]: surrounding whitespace is ignored, one sign
    is allowed; anything else raises [ValueError]. *)
Definition int_of_str (s : string) : result Z :=
  let t := strip s in
  let r :=
    match t with
    | String c d =>
        if (code c =? 45)%N then Z.opp <$> parse_digits 0 false d
        else if (code c =? 43)%N then parse_digits 0 false d
        else parse_digits 0 false t
    | EmptyString => None
    end in
  match r with Some z => Ok z | None => Raise ValueError end.

(** [int(t)] where [t] is [str] or [None] (the [.text] of an element). *)
Definition int_of_text (t : option string) : result Z :=
  match t with
  | Some s => int_of_str s
  | None => Raise TypeError
  end.

(** [str(t)] where [t] is [str] or [None]. *)
Definition str_of_text (t : option string) : string :=
  match t with
  | Some s => s
  | None => "None"
  end.

(** Python floats are kept abstract: [float_of_str] is [float(s)] on a
    [str] ([None] for the [ValueError] case) and [int_of_float] is
    [int(f)], which raises on infinities and NaN. *)
Class FloatModel : Type := {
  float : Type;
  float_of_str : string -> option float;
  int_of_float : float -> result Z;
}.

(** [float(t)] where [t] is [str] or [None]. *)
Definition float_of_text `{FloatModel} (t : option string) : result float :=
  match t with
  | Some s =>
      match float_of_str s with
      | Some f => Ok f
      | None => Raise ValueError
      end
  | None => Raise TypeError
  end.

(** The Python values that reach the enum helper: [None], integers,
    strings and members of enumerations (a member is identified by the
    name of its enumeration and its own name). *)
Inductive pyval : Type :=
| VNone
| VInt (z : Z)
| VStr (s : string)
| VMember (enum_name member_name : string).

#[global] Instance pyval_eq_dec : EqDecision pyval.
Proof. solve_decision. Defined.

(** [str(v)] *)
Definition str (v : pyval) : result pyval :=
  Ok (VStr
        match v with
        | VNone => "None"
        | VInt z => pretty z
        | VStr s => s
        | VMember e m => e +:+ "." +:+ m
        end).

(** [int(v)] *)
Definition int (v : pyval) : result pyval :=
  match v with
  | VInt z => Ok (VInt z)
  | VStr s => VInt <$> int_of_str s
  | VNone | VMember _ _ => Raise TypeError
  end.

(** A class created with [enum.Enum]: its name and its members in
    definition order, each with its value.  The class keeps the default
    [_missing_] hook. *)
Record EnumType : Type := {
  enum_name : string;
  enum_members : list (string * pyval);
}.

(** [isinstance(v, E)] for an enumeration [E] *)
Definition isinstance_enum (v : pyval) (E : EnumType) : bool :=
  match v with
  | VMember e _ => bool_decide (e = enum_name E)
  | _ => false
  end.

(** [E(v)]: a member is returned as it is; otherwise the first member
    whose value equals [v]; otherwise [ValueError] ("v is not a valid
    E"). *)
Definition enum_call (E : EnumType) (v : pyval) : result pyval :=
  if isinstance_enum v E then Ok v
  else
    match list_find (fun p => p.2 = v) (enum_members E) with
    | Some (_, (m, _)) => Ok (VMember (enum_name E) m)
    | None => Raise ValueError
    end.

(** [E] has a member for [v]: [v] is itself a member of [E], or it is the
    value of one. *)
Definition has_member (E : EnumType) (v : pyval) : Prop :=
  isinstance_enum v E = true \/ exists m, (m, v) ∈ enum_members E.

End Py.

Import Py.

(** A [dict] with string keys: the items in insertion order.  Assigning to
    a key that is present replaces its value and keeps its position. *)
Module Dict.

Definition t (V : Type) : Type := list (string * V).

Definition empty {V} : t V := [].

(** [d[k] = v] *)
Fixpoint setitem {V} (k : string) (v : V) (d : t V) : t V :=
  match d with
  | [] => [(k, v)]
  | (k', v') :: r =>
      if decide (k = k') then (k, v) :: r else (k', v') :: setitem k v r
  end.

(** [d.get(k)] *)
Fixpoint get {V} (k : string) (d : t V) : option V :=
  match d with
  | [] => None
  | (k', v') :: r => if decide (k = k') then Some v' else get k r
  end.

(** [list(d.keys())] *)
Definition keys {V} (d : t V) : list string := d.*1.

(** The keys of a sequence of assignments in the order in which each is
    first assigned. *)
Fixpoint first_occurrences (seen ks : list string) : list string :=
  match ks with
  | [] => []
  | k :: r =>
      if decide (k ∈ seen) then first_occurrences seen r
      else k :: first_occurrences (seen ++ [k]) r
  end.

End Dict.

(** ** The fragment of [re] the code relies on *)

Module Re.

(** One pattern character of the fragment: itself, or [.] (any character
    but a newline). *)
Inductive atom : Type :=
| Lit (c : ascii)
| AnyChar.

(** The characters with a special meaning in a pattern, other than [.]:
    backslash, caret, dollar, star, plus, question mark, braces, brackets,
    bar and parentheses. *)
Definition is_meta (c : ascii) : bool :=
  bool_decide (code c ∈ [92; 94; 36; 42; 43; 63; 123; 125; 91; 93; 124; 40; 41]%N).

Fixpoint all_chars (p : ascii -> bool) (s : string) : bool :=
  match s with
  | EmptyString => true
  | String c r => p c && all_chars p r
  end.

(** [s] reads as the inside of a repetition [{m}], [{m,}], [{,n}] or
    [{m,n}]: between braces it is a quantifier, not text. *)
Fixpoint quantifier_shaped (comma_seen : bool) (s : string) : bool :=
  match s with
  | EmptyString => true
  | String c r =>
      if is_digit c then quantifier_shaped comma_seen r
      else if (code c =? 44)%N && negb comma_seen then quantifier_shaped true r
      else false
  end.

(** The patterns made of literal characters and dots: no other special
    character, and not the inside of a repetition count. *)
Definition in_fragment (s : string) : bool :=
  all_chars (fun c => negb (is_meta c)) s && negb (quantifier_shaped false s).

Fixpoint atoms (s : string) : list atom :=
  match s with
  | EmptyString => []
  | String c r => (if (code c =? 46)%N then AnyChar else Lit c) :: atoms r
  end.

Definition atom_matches (a : atom) (c : ascii) : bool :=
  match a with
  | Lit c' => bool_decide (c' = c)
  | AnyChar => negb (is_newline c)
  end.

(** Match a sequence of atoms at the start of [s]; the rest of [s] after
    the match. *)
Fixpoint match_at (p : list atom) (s : string) : option string :=
  match p with
  | [] => Some s
  | a :: p' =>
      match s with
      | String c r => if atom_matches a c then match_at p' r else None
      | EmptyString => None
      end
  end.

(** A repetition written after a pattern character: none, [?], [*] or
    [+]. *)
Inductive quant : Type :=
| One
| Opt
| Star
| Plus.

Definition quant_of (c : ascii) : option quant :=
  if (code c =? 63)%N then Some Opt
  else if (code c =? 42)%N then Some Star
  else if (code c =? 43)%N then Some Plus
  else None.

Definition is_Some_quant (c : ascii) : bool :=
  match quant_of c with Some _ => true | None => false end.

Definition is_brace (c : ascii) : bool :=
  (code c =? 123)%N || (code c =? 125)%N.

(** Read a pattern whose characters are literal characters, [.], braces
    that stand for themselves, and the repetitions [?], [*] and [+], each
    directly after a character: the pattern characters, each with its
    repetition.  Any other text (a repetition after a repetition or at
    the start, another special character) is not read. *)
Fixpoint items (s : string) : option (list (atom * quant)) :=
  match s with
  | EmptyString => Some []
  | String c r =>
      if is_Some_quant c || (is_meta c && negb (is_brace c))
      then None
      else
        let a := if (code c =? 46)%N then AnyChar else Lit c in
        match r with
        | String q r' =>
            match quant_of q with
            | Some qu => cons (a, qu) <$> items r'
            | None => cons (a, One) <$> items r
            end
        | EmptyString => Some [(a, One)]
        end
  end.

(** Match a pattern with repetitions at the start of [s], as a
    backtracking matcher does: a repetition takes as many characters as
    it can and gives them back one by one while the rest of the pattern
    does not match.  The rest of [s] after the match found first. *)
Fixpoint match_items (p : list (atom * quant)) (s : string) : option string :=
  match p with
  | [] => Some s
  | (a, q) :: p' =>
      let k := match_items p' in
      let star :=
        fix star (s : string) : option string :=
          match s with
          | String c r =>
              if atom_matches a c
              then match star r with Some x => Some x | None => k s end
              else k s
          | EmptyString => k s
          end in
      match q with
      | One =>
          match s with
          | String c r => if atom_matches a c then k r else None
          | EmptyString => None
          end
      | Opt =>
          match s with
          | String c r =>
              if atom_matches a c
              then match k r with Some x => Some x | None => k s end
              else k s
          | EmptyString => k s
          end
      | Star => star s
      | Plus =>
          match s with
          | String c r => if atom_matches a c then star r else None
          | EmptyString => None
          end
      end
  end.

(** The namespaces with repetitions that are embedded: no brace, and not
    the inside of a repetition count. *)
Definition in_repeat_fragment (s : string) : bool :=
  all_chars (fun c => negb (is_brace c)) s && negb (quantifier_shaped false s).

(** [re.sub] of the pattern [^{x}] by the empty string in [s]: the
    pattern is anchored at the start of [s] and [x] is not escaped, so
    the characters of [x] that are special in a pattern act as such. *)
Definition sub_braced_prefix (x s : string) : result string :=
  if in_fragment x then
    match match_at (Lit "{"%char :: atoms x ++ [Lit "}"%char]) s with
    | Some r => Ok r
    | None => Ok s
    end
  else if in_repeat_fragment x then
    match items (String "{" (x +:+ "}")) with
    | Some p => Ok (default s (match_items p s))
    | None => Raise OutsideModel
    end
  else Raise OutsideModel.

(** [re.sub] for a pattern that never matches the empty string, given as
    a function [m] that tells whether the pattern matches at the start of
    a string and, if so, the replacement text and the rest of the string
    after the match.  The scan goes left to right; a character at which
    no match starts is copied; the scan resumes after each match. *)
Fixpoint sub_scan (m : string -> option (string * string)) (fuel : nat)
    (s : string) : string :=
  match fuel with
  | O => s
  | S fuel' =>
      match m s with
      | Some (repl, r) => repl +:+ sub_scan m fuel' r
      | None =>
          match s with
          | EmptyString => EmptyString
          | String c r => String c (sub_scan m fuel' r)
          end
      end
  end.

Definition sub (m : string -> option (string * string)) (s : string) : string :=
  sub_scan m (S (String.length s)) s.

(** The longest prefix of characters in class [p], and what follows. *)
Fixpoint span (p : ascii -> bool) (s : string) : string * string :=
  match s with
  | String c r =>
      if p c then let '(a, b) := span p r in (String c a, b)
      else (EmptyString, s)
  | EmptyString => (EmptyString, EmptyString)
  end.

End Re.

(** ** [lxml.objectify] elements *)

Module Lxml.

(** The element classes of [lxml.objectify]. *)
Inductive pytype : Type :=
| ObjectifiedElement
| IntElement
| FloatElement
| StringElement
| BoolElement
| NoneElement.

#[global] Instance pytype_eq_dec : EqDecision pytype.
Proof. solve_decision. Defined.

(** [isinstance(e, D)] for an element of class [c]: every class derives
    from [ObjectifiedElement], and [BoolElement] derives from
    [IntElement]. *)
Definition isinstance (c d : pytype) : bool :=
  match c, d with
  | _, ObjectifiedElement => true
  | BoolElement, IntElement => true
  | _, _ => bool_decide (c = d)
  end.

(** An element: its tag (with the namespace in braces in front, if it has
    one), its class, its text ([None] when it has none) and its child
    elements in document order. *)
#[warnings="-register-all"]
Inductive element : Type :=
| Element (tag_ : string) (cls_ : pytype) (text_ : option string)
    (children_ : list element).

Definition tag (e : element) : string := let 'Element t _ _ _ := e in t.
Definition cls (e : element) : pytype := let 'Element _ c _ _ := e in c.
Definition text (e : element) : option string := let 'Element _ _ x _ := e in x.
Definition iterchildren (e : element) : list element :=
  let 'Element _ _ _ l := e in l.

(** The braced namespace in front of a tag, braces included. *)
Fixpoint upto_brace (s : string) : option string :=
  match s with
  | EmptyString => None
  | String c r =>
      if (code c =? 125)%N then Some (String c EmptyString)
      else String c <$> upto_brace r
  end.

Definition ns_prefix (t : string) : string :=
  match t with
  | String c _ => if (code c =? 123)%N then default EmptyString (upto_brace t) else EmptyString
  | EmptyString => EmptyString
  end.

(** [e.name]: the first child with that local name in the namespace of
    [e]; [AttributeError] when there is none. *)
Definition getattr (e : element) (name : string) : result element :=
  match list_find (fun c => tag c = ns_prefix (tag e) +:+ name) (iterchildren e) with
  | Some (_, c) => Ok c
  | None => Raise AttributeError
  end.

(** A path that is one plain tag name: letters, digits, [_] and [-]. *)
Definition simple_name (name : string) : bool :=
  negb (bool_decide (name = EmptyString)) &&
  Re.all_chars (fun c => is_upper c || is_lower c || is_digit c
                         || (code c =? 95)%N || (code c =? 45)%N) name.

(** [e.findall(name)] for a path that is a plain tag name: the direct
    children with that tag, in document order. *)
Definition findall (e : element) (name : string) : result (list element) :=
  if simple_name name
  then Ok (filter (fun c => tag c = name) (iterchildren e))
  else Raise OutsideModel.

(** The boolean literals of [BoolElement]. *)
Definition parse_bool (t : option string) : result Z :=
  match t with
  | None => Ok 0
  | Some s =>
      if bool_decide (s = "true") || bool_decide (s = "1") then Ok 1
      else if bool_decide (s = "false") || bool_decide (s = "0") then Ok 0
      else Raise ValueError
  end.

(** [int(e)] on an element: number and string elements convert their
    text, the other classes have no conversion. *)
Definition int_of_element `{FloatModel} (e : element) : result Z :=
  match cls e with
  | IntElement | StringElement => int_of_text (text e)
  | FloatElement => f ← float_of_text (text e); int_of_float f
  | BoolElement => parse_bool (text e)
  | NoneElement | ObjectifiedElement => Raise TypeError
  end.

End Lxml.

(** ** [mh_utils.utils] *)

Module MhUtils.

(** Modelled from the spec: the first pass of [camel_to_snake] below, the
    pattern [(.)([A-Z][a-z]+)] at the start of [s]: any character but a newline,
    an upper-case letter, then as many lower-case letters as follow (at
    least one).  The replacement is [\1_\2]. *)
Definition word_boundary (s : string) : option (string * string) :=
  match s with
  | String c (String u (String l r)) =>
      if negb (is_newline c) && is_upper u && is_lower l then
        let '(run, r') := Re.span is_lower r in
        Some (String c (String "_" (String u (String l run))), r')
      else None
  | _ => None
  end.

(** Modelled from the spec: the second pass of [camel_to_snake] below,
    the pattern [([a-z0-9])([A-Z])] at the start of [s]; the replacement
    is [\1_\2]. *)
Definition letter_boundary (s : string) : option (string * string) :=
  match s with
  | String a (String u r) =>
      if (is_lower a || is_digit a) && is_upper u then
        Some (String a (String "_" (String u EmptyString)), r)
      else None
  | _ => None
  end.

(** Modelled from the spec: [camel_to_snake] is imported from
    [mh_utils.utils], whose code is not under src/; the spec calls it the
    generic CamelCase-to-snake_case transform.  It is embedded as the
    two-pass rewriting such a transform performs: an underscore is put
    between a character and an upper-case letter that starts a capitalised
    word, then between a lower-case letter or digit and an upper-case
    letter, and the result is lower-cased. *)
Definition camel_to_snake (name : string) : string :=
  lower (Re.sub letter_boundary (Re.sub word_boundary name)).

(** No upper-case letter occurs in [s]. *)
Definition no_upper (s : string) : bool :=
  Re.all_chars (fun c => negb (is_upper c)) s.

(** A snake_case name: lower-case letters, digits and underscores. *)
Definition is_snake_case (s : string) : bool :=
  Re.all_chars (fun c => is_lower c || is_digit c || (code c =? 95)%N) s.

End MhUtils.

(** ** [pyms_agilent.xml_parser.core] *)

Module Core.

Import Lxml MhUtils.

(** *** [make_from_element] and [XMLList] *)

(** What a subclass of [XMLList] binds: the tag of the child elements it
    collects ([_content_xml_name]) and the class of its records
    ([_content_type]), of which only the [from_xml] constructor is used. *)
Class ContentType (R : Type) : Type := {
  _content_xml_name : string;
  _content_type_from_xml : element -> result R;
}.

(** The argument of [int(version)]: a plain value or an element. *)
Inductive version_arg : Type :=
| OfValue (v : pyval)
| OfElement (e : element).

Definition int_of_version `{FloatModel} (v : version_arg) : result Z :=
  match v with
  | OfValue (VInt z) => Ok z
  | OfValue (VStr s) => int_of_str s
  | OfValue _ => Raise TypeError
  | OfElement e => int_of_element e
  end.

(** [make_from_element(element, name, class_)] is a generator: the
    children are found when it is first advanced, and each record is
    built when it is asked for.  [for_each] is the loop that consumes it:
    build the next record, run the body on it, go on. *)
Fixpoint for_each {S R} (build : element -> result R) (body : R -> M S unit)
    (items : list element) : M S unit :=
  match items with
  | [] => ret tt
  | item :: rest =>
      bind (lift (build item)) (fun r => bind (body r) (fun _ => for_each build body rest))
  end.

Definition make_from_element {S R} (element : element) (name : string)
    (class_from_xml : Lxml.element -> result R) (body : R -> M S unit) : M S unit :=
  bind (lift (findall element name)) (for_each class_from_xml body).

Module XMLList.

(** An [XMLList]: the [version] attribute and the records ([data], the
    list the [UserList] base class wraps). *)
Record t (R : Type) : Type := Build {
  version : Z;
  data : list R;
}.
Arguments Build {R} version data.
Arguments version {R} _.
Arguments data {R} _.

(** [XMLList(version, initlist)] *)
Definition __init__ `{FloatModel} {R} (version : version_arg)
    (initlist : option (list R)) : result (t R) :=
  v ← int_of_version version;
  Ok (Build v (default [] initlist)).

(** The text of a version reads as a number: an integer or a float
    literal. *)
Definition numeric_text `{FloatModel} (t : option string) : bool :=
  match t with
  | Some s => is_ok (int_of_str s) || bool_decide (is_Some (float_of_str s))
  | None => false
  end.

(** [cls.from_xml(element)]: [cls(element.Version)] *)
Definition from_xml `{FloatModel} {R} (element : element) : result (t R) :=
  v ← getattr element "Version";
  __init__ (OfElement v) None.

(** [self.append(item)] *)
Definition append {R} (item : R) : M (t R) unit :=
  fun self => (Ok tt, Build (version self) (data self ++ [item])).

(** [self[i] = item]: a negative index counts from the end; an index out
    of range raises [IndexError]. *)
Definition __setitem__ {R} (i : Z) (item : R) : M (t R) unit :=
  fun self =>
    let n := Z.of_nat (length (data self)) in
    let j := if i <? 0 then i + n else i in
    if (0 <=? j) && (j <? n)
    then (Ok tt, Build (version self) (<[Z.to_nat j := item]> (data self)))
    else (Raise IndexError, self).

(** [self._append_from_element(element)] *)
Definition _append_from_element `{ContentType R} (element : element) : M (t R) unit :=
  make_from_element element _content_xml_name _content_type_from_xml append.

(** The operations on a list object that the type offers. *)
Inductive op (R : Type) : Type :=
| Append (item : R)
| SetItem (i : Z) (item : R)
| AppendFromElement (e : element).
Arguments Append {R} item.
Arguments SetItem {R} i item.
Arguments AppendFromElement {R} e.

Definition run `{ContentType R} (o : op R) : M (t R) unit :=
  match o with
  | Append item => append item
  | SetItem i item => __setitem__ i item
  | AppendFromElement e => _append_from_element e
  end.

(** A sequence of [_append_from_element] calls, one per element. *)
Fixpoint append_all `{ContentType R} (es : list element) : M (t R) unit :=
  match es with
  | [] => ret tt
  | e :: es' => bind (_append_from_element e) (fun _ => append_all es')
  end.

End XMLList.

(** *** [_get_from_enum] *)

Definition _get_from_enum (value : pyval) (enum : EnumType)
    (type_ : pyval -> result pyval) : result pyval :=
  if isinstance_enum value enum then Ok value
  else v ← type_ value; enum_call enum v.

(** *** [tag2dict] *)

(** The values stored in the dictionary: [int], [str], [float] or
    [None]. *)
Inductive field `{FloatModel} : Type :=
| FInt (z : Z)
| FStr (s : string)
| FFloat (f : float)
| FNone.

(** The first [if] of the loop body: the tag without the namespace. *)
Definition strip_namespace (xmlns : option string) (t : string) : result string :=
  match xmlns with
  | Some x => if bool_decide (x = EmptyString) then Ok t else Re.sub_braced_prefix x t
  | None => Ok t
  end.

(** The second [if]: the key for a tag name. *)
Definition canonical_key (camel_lookup : option (gmap string string))
    (n : string) : string :=
  match camel_lookup with
  | Some table => default (camel_to_snake n) (table !! n)
  | None => camel_to_snake n
  end.

(** The namespace argument is absent, empty, or a pattern of the embedded
    fragment of [re]. *)
Definition xmlns_in_fragment (xmlns : option string) : bool :=
  match xmlns with
  | Some x => bool_decide (x = EmptyString) || Re.in_fragment x
  | None => true
  end.

Definition tag_name (camel_lookup : option (gmap string string))
    (xmlns : option string) (tag_ : element) : result string :=
  n ← strip_namespace xmlns (tag tag_);
  Ok (canonical_key camel_lookup n).

(** The second half: the value of a child. *)
Definition value `{FloatModel} (tag_ : element) : result field :=
  if isinstance (cls tag_) IntElement then FInt <$> int_of_text (text tag_)
  else if isinstance (cls tag_) StringElement then Ok (FStr (str_of_text (text tag_)))
  else if isinstance (cls tag_) FloatElement then FFloat <$> float_of_text (text tag_)
  else Ok match text tag_ with Some s => FStr s | None => FNone end.

Fixpoint tag2dict_loop `{FloatModel} (camel_lookup : option (gmap string string))
    (xmlns : option string) (tags : list element) (output_dict : Dict.t field)
    : result (Dict.t field) :=
  match tags with
  | [] => Ok output_dict
  | tag_ :: rest =>
      k ← tag_name camel_lookup xmlns tag_;
      v ← value tag_;
      tag2dict_loop camel_lookup xmlns rest (Dict.setitem k v output_dict)
  end.

Definition tag2dict `{FloatModel} (element : element)
    (camel_lookup : option (gmap string string)) (xmlns : option string)
    : result (Dict.t field) :=
  tag2dict_loop camel_lookup xmlns (iterchildren element) Dict.empty.

End Core.

(** ** [pyms_agilent.metadata] *)

Module Metadata.

(** What a caller may pass as [path]: a string or a path object, or
    something that is neither (a number, a list). *)
#[warnings="-register-all"]
Inductive pyarg : Type :=
| AStr (s : string)
| APath (s : string)
| AInt (z : Z)
| AList (l : list pyarg).

(** The file system: what each path names. *)
Inductive node : Type :=
| Dir
| File (content : string).

(** The file system accesses made, latest first. *)
Inductive io_event : Type :=
| Stat (p : string)
| Read (p : string).

Definition is_read (e : io_event) : bool :=
  match e with Read _ => true | Stat _ => false end.

Definition log (e : io_event) : M (list io_event) unit :=
  fun l => (Ok tt, e :: l).

(** The vendor datafile extension. *)
Definition extension : string := ".d".

Fixpoint ends_with (suffix s : string) : bool :=
  bool_decide (s = suffix) ||
  match s with
  | String _ r => ends_with suffix r
  | EmptyString => false
  end.

(** The eight logical metadata files. *)
Definition logical_names : list string :=
  ["AcqMethod"; "Contents"; "DefaultMassCal"; "DeviceConfigInfo"; "Devices";
   "MSActualDefs"; "MSTS"; "sample_info"].

(** The per-file parsers: where the file of a logical name is expected
    inside the datafile directory, and what parsing its content gives. *)
Class Parsers : Type := {
  parsed : Type;
  expected_file : string -> string -> string;
  parse : string -> string -> result parsed;
}.

(** Modelled from the spec: [is_datafile] of [pyms_agilent/metadata.py],
    which is not under src/ (only its tests are).  A value that is not
    path-like is a type error, raised before the file system is looked
    at; a path is a datafile when it names an existing directory whose
    name ends in the datafile extension. *)
Definition is_datafile (fs : gmap string node) (path : pyarg) : M (list io_event) bool :=
  match path with
  | AStr p | APath p =>
      bind (log (Stat p)) (fun _ =>
      ret (match fs !! p with
           | Some Dir => ends_with extension p
           | _ => false
           end))
  | AInt _ | AList _ => lift (Raise TypeError)
  end.

Definition is_path_type (path : pyarg) : bool :=
  match path with
  | AStr _ | APath _ => true
  | AInt _ | AList _ => false
  end.

Definition path_of (path : pyarg) : string :=
  match path with
  | AStr p | APath p => p
  | _ => EmptyString
  end.

(** Modelled from the spec: the loop of [extract_metadata] over the
    logical names, whose code is not under src/.  The files are read and
    parsed in order, each result is added to the mapping, and a missing
    file stops the extraction. *)
Fixpoint parse_files `{Parsers} (fs : gmap string node) (dir : string)
    (names : list string) (out : Dict.t parsed) : M (list io_event) (Dict.t parsed) :=
  match names with
  | [] => ret out
  | name :: rest =>
      let file := expected_file dir name in
      bind (log (Read file)) (fun _ =>
      match fs !! file with
      | Some (File content) =>
          bind (lift (parse name content)) (fun obj =>
          parse_files fs dir rest (Dict.setitem name obj out))
      | _ => lift (Raise FileNotFoundError)
      end)
  end.

(** Modelled from the spec: [extract_metadata] of
    [pyms_agilent/metadata.py], which is not under src/ (only its tests
    are).  The argument is validated first; anything that is not a
    datafile is rejected with [ValueError] ("not a recognized datafile");
    then each of the eight logical files is located, parsed and stored
    under its logical name. *)
Definition extract_metadata `{Parsers} (fs : gmap string node) (path : pyarg)
    : M (list io_event) (Dict.t parsed) :=
  bind (is_datafile fs path) (fun ok =>
  if ok then parse_files fs (path_of path) logical_names Dict.empty
  else lift (Raise ValueError)).

End Metadata.

(** ** Instances used to run the model on examples *)

Module Examples.

Import Lxml Core.

(** Exact decimals [m / 10^k] in place of IEEE doubles: enough to run
    [float] on literals such as [12.5]. *)
Fixpoint normalise (k : nat) (m : Z) : Z * nat :=
  match k with
  | O => (m, O)
  | S k' => if (m mod 10 =? 0) then normalise k' (m / 10) else (m, k)
  end.

Definition decimal_of_str (s : string) : option (Z * nat) :=
  let t := strip s in
  let '(neg, body) :=
    match t with
    | String c d =>
        if (code c =? 45)%N then (true, d)
        else if (code c =? 43)%N then (false, d) else (false, t)
    | EmptyString => (false, t)
    end in
  let '(ip, rest) := Re.span is_digit body in
  let fp :=
    match rest with
    | EmptyString => Some EmptyString
    | String c d => if (code c =? 46)%N then Some d else None
    end in
  match fp with
  | Some fp =>
      match parse_digits 0 false (ip +:+ fp) with
      | Some m => Some (normalise (String.length fp) (if neg then - m else m))
      | None => None
      end
  | None => None
  end.

#[global] Instance decimal_float : FloatModel := {|
  float := Z * nat;
  float_of_str := decimal_of_str;
  int_of_float := fun '(m, k) => Ok (Z.quot m (10 ^ Z.of_nat k));
|}.

(** A record type for the examples: a device with its name. *)
#[global] Instance device_content : ContentType string := {|
  _content_xml_name := "Device";
  _content_type_from_xml := fun e =>
    n ← getattr e "Name"; Ok (str_of_text (text n));
|}.

(** An enumeration with string values. *)
Definition DeviceType : EnumType :=
  {| enum_name := "DeviceType";
     enum_members := [("Unknown", VStr "0"); ("Mixed", VStr "1");
                      ("Quadrupole", VStr "2"); ("IonTrap", VStr "4")] |}.

#[global] Instance text_parsers : Metadata.Parsers := {|
  Metadata.parsed := string;
  Metadata.expected_file := fun dir name => dir +:+ "/AcqData/" +:+ name +:+ ".xml";
  Metadata.parse := fun _ content => Ok content;
|}.

(** A device element: a name, an ordinal number, a delay, a second name
    without text, and a nested element. *)
Definition device_example : element :=
  Element "{ns}Device" ObjectifiedElement None
    [Element "{ns}Name" StringElement (Some "QQQ") [];
     Element "{ns}OrdinalNumber" IntElement (Some "1") [];
     Element "{ns}Delay" FloatElement (Some "0.5") [];
     Element "{ns}Name" StringElement None [];
     Element "{ns}Sub" ObjectifiedElement None []].

(** A device list: the version, two devices and an unrelated child. *)
Definition devices_example : element :=
  Element "Devices" ObjectifiedElement None
    [Element "Version" IntElement (Some "1") [];
     Element "Device" ObjectifiedElement None
       [Element "Name" StringElement (Some "QQQ") []];
     Element "Device" ObjectifiedElement None
       [Element "Name" StringElement (Some "GC") []];
     Element "Other" StringElement (Some "x") []].

(** A root whose version reads [true]. *)
Definition boolean_version_example : element :=
  Element "Devices" ObjectifiedElement None
    [Element "Version" BoolElement (Some "true") []].

End Examples.

(** * Properties *)

Import Lxml MhUtils Core.

(** ** The enum resolution helper *)

Section EnumResolution.

Variable enum : EnumType.

Lemma enum_call_no_member (v : pyval) :
  ~ has_member enum v -> enum_call enum v = Raise ValueError.
Proof.
  intros Hno. unfold enum_call.
  destruct (isinstance_enum v enum) eqn:Hi.
  - exfalso. apply Hno. by left.
  - destruct (list_find _ _) as [[i [m w]]|] eqn:Hf; [|done].
    apply list_find_Some in Hf as (Hl & Hw & _). simpl in Hw. subst w.
    exfalso. apply Hno. right. exists m.
    by eapply list_elem_of_lookup_2.
Qed.

Lemma enum_call_member (v : pyval) :
  has_member enum v ->
  exists r, enum_call enum v = Ok r /\ isinstance_enum r enum = true /\
    (r = v \/ exists m, r = VMember (enum_name enum) m /\ (m, v) ∈ enum_members enum).
Proof.
  intros Hm. unfold enum_call.
  destruct (isinstance_enum v enum) eqn:Hi.
  - exists v. auto.
  - destruct Hm as [Hm|[m Hm]]; [congruence|].
    destruct (list_find _ _) as [[i [m' w]]|] eqn:Hf.
    + apply list_find_Some in Hf as (Hl & Hw & _). simpl in Hw. subst w.
      exists (VMember (enum_name enum) m'). split; [done|]. split.
      * simpl. by apply bool_decide_eq_true.
      * right. exists m'. split; [done|]. by eapply list_elem_of_lookup_2.
    + exfalso. eapply list_find_None in Hf.
      rewrite Forall_forall in Hf. by apply (Hf _ Hm).
Qed.

Lemma get_from_enum_result_is_member (x r : pyval) type_ :
  _get_from_enum x enum type_ = Ok r -> isinstance_enum r enum = true.
Proof.
  unfold _get_from_enum. destruct (isinstance_enum x enum) eqn:Hx.
  - by intros [= <-].
  - destruct (type_ x) as [v|e]; simpl; [|done].
    unfold enum_call. destruct (isinstance_enum v enum) eqn:Hv.
    + by intros [= <-].
    + destruct (list_find _ _) as [[i [m w]]|]; [|done].
      intros [= <-]. simpl. by apply bool_decide_eq_true.
Qed.

(** C1.  A value that is not a member of the enumeration is coerced with
    [type_] and the result is looked up in the enumeration.  When the
    coerced value has no member, the call raises [ValueError] (it never
    falls back to some member); when it has one, that member is
    returned; an exception of the coercion itself propagates.  With the
    default coercion [str] the lookup is made on the text of the value. *)
Theorem get_from_enum_unmapped_fails (value : pyval) (type_ : pyval -> result pyval) :
  isinstance_enum value enum = false ->
  _get_from_enum value enum type_ = type_ value ≫= enum_call enum /\
  (forall v, type_ value = Ok v -> ~ has_member enum v ->
     _get_from_enum value enum type_ = Raise ValueError) /\
  (forall v, type_ value = Ok v -> has_member enum v ->
     exists r, _get_from_enum value enum type_ = Ok r /\
       isinstance_enum r enum = true /\
       (r = v \/ exists m, r = VMember (enum_name enum) m /\ (m, v) ∈ enum_members enum)) /\
  (forall e, type_ value = Raise e -> _get_from_enum value enum type_ = Raise e) /\
  (exists s, Py.str value = Ok (VStr s) /\
     _get_from_enum value enum Py.str = enum_call enum (VStr s)).
Proof.
  intros Hi. unfold _get_from_enum. rewrite Hi.
  split; [done|]. split; [|split; [|split]].
  - intros v -> Hno. simpl. by apply enum_call_no_member.
  - intros v -> Hm. simpl. by apply enum_call_member.
  - by intros e ->.
  - unfold Py.str. eexists. split; [done|]. done.
Qed.

(** C8.  A value that is already a member of the enumeration is returned
    unchanged, so resolving the result of a successful resolution gives
    that result again. *)
Theorem get_from_enum_idempotent (value : pyval) (type_ : pyval -> result pyval) :
  (isinstance_enum value enum = true -> _get_from_enum value enum type_ = Ok value) /\
  (forall r, _get_from_enum value enum type_ = Ok r ->
     _get_from_enum r enum type_ = Ok r).
Proof.
  split.
  - intros Hi. unfold _get_from_enum. by rewrite Hi.
  - intros r Hr. apply get_from_enum_result_is_member in Hr.
    unfold _get_from_enum. by rewrite Hr.
Qed.

End EnumResolution.

Lemma get_from_enum_unmapped_fails_witness :
  _get_from_enum (VInt 3) Examples.DeviceType Py.str = Raise ValueError /\
  _get_from_enum (VInt 4) Examples.DeviceType Py.str
    = Ok (VMember "DeviceType" "IonTrap").
Proof.
  assert (Hi3 : isinstance_enum (VInt 3) Examples.DeviceType = false) by reflexivity.
  assert (Hi4 : isinstance_enum (VInt 4) Examples.DeviceType = false) by reflexivity.
  split.
  - apply (proj1 (proj2 (get_from_enum_unmapped_fails Examples.DeviceType
                           (VInt 3) Py.str Hi3)) (VStr "3")); [reflexivity|].
    intros [H|[m H]]; [discriminate|].
    cbn in H. rewrite !elem_of_cons, elem_of_nil in H.
    intuition discriminate.
  - rewrite (proj1 (get_from_enum_unmapped_fails Examples.DeviceType
                      (VInt 4) Py.str Hi4)).
    reflexivity.
Defined.

Lemma get_from_enum_idempotent_witness :
  _get_from_enum (VMember "DeviceType" "Mixed") Examples.DeviceType Py.str
    = Ok (VMember "DeviceType" "Mixed") /\
  _get_from_enum (VStr "2") Examples.DeviceType Py.str
    = Ok (VMember "DeviceType" "Quadrupole") /\
  _get_from_enum (VMember "DeviceType" "Quadrupole") Examples.DeviceType Py.str
    = Ok (VMember "DeviceType" "Quadrupole").
Proof.
  split; [|split].
  - apply (proj1 (get_from_enum_idempotent Examples.DeviceType
                    (VMember "DeviceType" "Mixed") Py.str)).
    reflexivity.
  - reflexivity.
  - apply (proj2 (get_from_enum_idempotent Examples.DeviceType (VStr "2") Py.str)).
    reflexivity.
Defined.

(** ** Dictionaries *)

Section DictFacts.

Context {V : Type}.
Implicit Types (d : Dict.t V) (k : string) (v : V).

Lemma dict_get_setitem_eq d k v : Dict.get k (Dict.setitem k v d) = Some v.
Proof.
  induction d as [|[k' v'] r IH]; simpl.
  - by rewrite decide_True.
  - destruct (decide (k = k')) as [->|Hne]; simpl.
    + by rewrite decide_True.
    + by rewrite decide_False.
Qed.

Lemma dict_get_setitem_ne d k k' v :
  k <> k' -> Dict.get k' (Dict.setitem k v d) = Dict.get k' d.
Proof.
  intros Hne. induction d as [|[k0 v0] r IH]; simpl.
  - rewrite decide_False; [done|congruence].
  - destruct (decide (k = k0)) as [->|Hk]; simpl.
    + rewrite !decide_False; congruence.
    + destruct (decide (k' = k0)); [done|apply IH].
Qed.

Lemma dict_keys_setitem d k v :
  Dict.keys (Dict.setitem k v d)
  = if decide (k ∈ Dict.keys d) then Dict.keys d else Dict.keys d ++ [k].
Proof.
  unfold Dict.keys. induction d as [|[k0 v0] r IH]; cbn [Dict.setitem fmap list_fmap fst].
  - destruct (decide (k ∈ [])) as [Hin|_]; [|done]. by apply elem_of_nil in Hin.
  - destruct (decide (k = k0)) as [->|Hk]; cbn [fmap list_fmap fst].
    + rewrite decide_True; [done|]. apply elem_of_cons. by left.
    + rewrite IH. destruct (decide (k ∈ r.*1)) as [Hin|Hin].
      * rewrite decide_True; [done|]. apply elem_of_cons. by right.
      * rewrite decide_False; [done|]. rewrite elem_of_cons. intros [?|?]; done.
Qed.

Lemma dict_keys_setitem_NoDup d k v :
  NoDup (Dict.keys d) -> NoDup (Dict.keys (Dict.setitem k v d)).
Proof.
  intros Hnd. rewrite dict_keys_setitem. destruct (decide _) as [|Hin]; [done|].
  apply NoDup_app. split; [done|]. split.
  - intros x Hx Hx'. apply list_elem_of_singleton in Hx'. by subst.
  - apply NoDup_singleton.
Qed.

Lemma dict_get_Some_keys d k v : Dict.get k d = Some v -> k ∈ Dict.keys d.
Proof.
  unfold Dict.keys. induction d as [|[k0 v0] r IH]; simpl; [done|].
  destruct (decide (k = k0)) as [->|Hk]; intros Hg.
  - apply elem_of_cons. by left.
  - apply elem_of_cons. right. by apply IH.
Qed.

End DictFacts.

(** ** The loop of [tag2dict] *)

Section Tag2DictLoop.

Context `{FloatModel}.
Variable camel_lookup : option (gmap string string).
Variable xmlns : option string.

Abbreviation loop := (tag2dict_loop camel_lookup xmlns).
Abbreviation key := (tag_name camel_lookup xmlns).

Lemma loop_cons c tags d0 d :
  loop (c :: tags) d0 = Ok d <->
  exists k v, key c = Ok k /\ value c = Ok v /\ loop tags (Dict.setitem k v d0) = Ok d.
Proof.
  simpl. destruct (key c) as [k|e]; simpl.
  - destruct (value c) as [v|e]; simpl.
    + split; [intros Hl; by exists k, v|].
      by intros (k' & v' & [= <-] & [= <-] & Hl).
    + split; [done|]. by intros (k' & v' & _ & ? & _).
  - split; [done|]. by intros (k' & v' & ? & _).
Qed.

Lemma loop_app pre post d0 d :
  loop (pre ++ post) d0 = Ok d <->
  exists d1, loop pre d0 = Ok d1 /\ loop post d1 = Ok d.
Proof.
  revert d0. induction pre as [|c pre IH]; intros d0.
  - simpl. split; [intros Hl; by exists d0|]. by intros (d1 & [= <-] & Hl).
  - rewrite <- app_comm_cons, loop_cons. split.
    + intros (k & v & Hk & Hv & Hl). apply IH in Hl as (d1 & Hpre & Hpost).
      exists d1. split; [|done]. apply loop_cons. by exists k, v.
    + intros (d1 & Hpre & Hpost). apply loop_cons in Hpre as (k & v & Hk & Hv & Hl).
      exists k, v. split; [done|]. split; [done|]. apply IH. by exists d1.
Qed.

Lemma loop_get_other tags d0 d k :
  loop tags d0 = Ok d ->
  (forall c, c ∈ tags -> key c <> Ok k) ->
  Dict.get k d = Dict.get k d0.
Proof.
  revert d0. induction tags as [|c tags IH]; intros d0 Hl Hno.
  - simpl in Hl. by injection Hl as <-.
  - apply loop_cons in Hl as (k' & v & Hk & Hv & Hl).
    rewrite (IH _ Hl).
    + apply dict_get_setitem_ne. intros ->. apply (Hno c); [|done].
      apply elem_of_cons. by left.
    + intros c' Hc'. apply Hno. apply elem_of_cons. by right.
Qed.

Lemma loop_keys tags d0 d :
  loop tags d0 = Ok d ->
  exists ks, mapM key tags = Ok ks /\
    Dict.keys d = Dict.keys d0 ++ Dict.first_occurrences (Dict.keys d0) ks.
Proof.
  revert d0. induction tags as [|c tags IH]; intros d0 Hl.
  - simpl in Hl. injection Hl as <-. exists []. simpl. by rewrite app_nil_r.
  - apply loop_cons in Hl as (k & v & Hk & Hv & Hl).
    apply IH in Hl as (ks & Hks & Hkeys). exists (k :: ks). simpl.
    rewrite Hk, Hks. split; [done|].
    rewrite Hkeys, dict_keys_setitem.
    destruct (decide (k ∈ Dict.keys d0)); [done|]. by rewrite <- app_assoc.
Qed.

Lemma loop_NoDup tags d0 d :
  loop tags d0 = Ok d -> NoDup (Dict.keys d0) -> NoDup (Dict.keys d).
Proof.
  revert d0. induction tags as [|c tags IH]; intros d0 Hl Hnd.
  - simpl in Hl. by injection Hl as <-.
  - apply loop_cons in Hl as (k & v & Hk & Hv & Hl).
    apply (IH _ Hl). by apply dict_keys_setitem_NoDup.
Qed.

Lemma loop_is_ok tags d0 :
  is_ok (loop tags d0) = true <->
  forall c, c ∈ tags -> is_ok (key c) = true /\ is_ok (value c) = true.
Proof.
  revert d0. induction tags as [|c tags IH]; intros d0.
  - simpl. split; [|done]. intros _ c Hc. by apply elem_of_nil in Hc.
  - simpl. destruct (key c) as [k|e] eqn:Hk; simpl.
    + destruct (value c) as [v|e] eqn:Hv; simpl.
      * rewrite IH. split.
        -- intros Hall c' Hc'. apply elem_of_cons in Hc' as [->|Hc'].
           ++ by rewrite Hk, Hv.
           ++ by apply Hall.
        -- intros Hall c' Hc'. apply Hall. apply elem_of_cons. by right.
      * split; [done|]. intros Hall.
        destruct (Hall c) as [_ Hbad]; [apply elem_of_cons; by left|].
        by rewrite Hv in Hbad.
    + split; [done|]. intros Hall.
      destruct (Hall c) as [Hbad _]; [apply elem_of_cons; by left|].
      by rewrite Hk in Hbad.
Qed.

(** The entry of a child that no later child overwrites. *)
Lemma loop_last_wins pre c post d0 d k :
  loop (pre ++ c :: post) d0 = Ok d ->
  key c = Ok k ->
  (forall c', c' ∈ post -> key c' <> Ok k) ->
  exists v, value c = Ok v /\ Dict.get k d = Some v.
Proof.
  intros Hl Hk Hno.
  apply loop_app in Hl as (d1 & _ & Hl).
  apply loop_cons in Hl as (k' & v & Hk' & Hv & Hl).
  rewrite Hk in Hk'. injection Hk' as <-.
  exists v. split; [done|].
  rewrite (loop_get_other _ _ _ _ Hl Hno). apply dict_get_setitem_eq.
Qed.

End Tag2DictLoop.

(** ** [tag2dict]: values *)

Section Tag2DictValues.

Context `{FloatModel}.

(** The value of a child follows its class: an [IntElement] (which
    includes [BoolElement], its subclass) gives [int(text)], a
    [StringElement] gives [str(text)], a [FloatElement] gives
    [float(text)], and any other element gives its text as it is, which
    cannot fail.  [tag2dict] stores that value under the key of the
    child, and it raises exactly when computing the key or the value of
    some child raises, so never because of a child of the last kind. *)
Theorem tag2dict_coerces_by_leaf_type (element : element)
    (camel_lookup : option (gmap string string)) (xmlns : option string) :
  (forall c,
     (isinstance (cls c) IntElement = true ->
        value c = FInt <$> int_of_text (text c)) /\
     (isinstance (cls c) IntElement = false ->
      isinstance (cls c) StringElement = true ->
        value c = Ok (FStr (str_of_text (text c)))) /\
     (isinstance (cls c) IntElement = false ->
      isinstance (cls c) StringElement = false ->
      isinstance (cls c) FloatElement = true ->
        value c = FFloat <$> float_of_text (text c)) /\
     (isinstance (cls c) IntElement = false ->
      isinstance (cls c) StringElement = false ->
      isinstance (cls c) FloatElement = false ->
        value c = Ok match text c with Some s => FStr s | None => FNone end /\
        is_ok (value c) = true)) /\
  (forall d pre c post,
     tag2dict element camel_lookup xmlns = Ok d ->
     iterchildren element = pre ++ c :: post ->
     exists k v, tag_name camel_lookup xmlns c = Ok k /\ value c = Ok v /\
       ((forall c', c' ∈ post -> tag_name camel_lookup xmlns c' <> Ok k) ->
        Dict.get k d = Some v)) /\
  (is_ok (tag2dict element camel_lookup xmlns) = true <->
   forall c, c ∈ iterchildren element ->
     is_ok (tag_name camel_lookup xmlns c) = true /\ is_ok (value c) = true).
Proof.
  split; [|split].
  - intros c. unfold value. split; [|split; [|split]].
    + by intros ->.
    + by intros -> ->.
    + by intros -> -> ->.
    + by intros -> -> ->.
  - intros d pre c post Hd Hch. unfold tag2dict in Hd. rewrite Hch in Hd.
    pose proof Hd as Hd'.
    apply loop_app in Hd' as (d1 & _ & Hl).
    apply loop_cons in Hl as (k & v & Hk & Hv & _).
    exists k, v. split; [done|]. split; [done|]. intros Hno.
    destruct (loop_last_wins _ _ _ _ _ _ _ _ Hd Hk Hno) as (v' & Hv' & Hg).
    congruence.
  - apply loop_is_ok.
Qed.

(** C6.  The keys of the returned mapping are pairwise distinct and are
    the keys of the children in the order in which each first occurs;
    the value under a key is the value of the last child with that
    key. *)
Theorem tag2dict_last_occurrence_wins (element : element)
    (camel_lookup : option (gmap string string)) (xmlns : option string)
    (d : Dict.t field) :
  tag2dict element camel_lookup xmlns = Ok d ->
  NoDup (Dict.keys d) /\
  (exists ks, mapM (tag_name camel_lookup xmlns) (iterchildren element) = Ok ks /\
     Dict.keys d = Dict.first_occurrences [] ks) /\
  (forall pre c post k,
     iterchildren element = pre ++ c :: post ->
     tag_name camel_lookup xmlns c = Ok k ->
     (forall c', c' ∈ post -> tag_name camel_lookup xmlns c' <> Ok k) ->
     exists v, value c = Ok v /\ Dict.get k d = Some v /\ k ∈ Dict.keys d).
Proof.
  unfold tag2dict. intros Hd. split; [|split].
  - apply (loop_NoDup _ _ _ _ _ Hd). apply NoDup_nil_2.
  - apply loop_keys in Hd as (ks & Hks & Hkeys). by exists ks.
  - intros pre c post k Hch Hk Hno. rewrite Hch in Hd.
    destruct (loop_last_wins _ _ _ _ _ _ _ _ Hd Hk Hno) as (v & Hv & Hg).
    exists v. split; [done|]. split; [done|]. by eapply dict_get_Some_keys.
Qed.

(** C10.  A string-typed child without text is stored as the string
    [None] (the text of Python's null), which is neither the empty
    string nor the null value. *)
Theorem tag2dict_empty_string_leaf (element : element)
    (camel_lookup : option (gmap string string)) (xmlns : option string)
    (d : Dict.t field) (pre post : list Lxml.element) (c : Lxml.element) (k : string) :
  tag2dict element camel_lookup xmlns = Ok d ->
  iterchildren element = pre ++ c :: post ->
  isinstance (cls c) StringElement = true ->
  text c = None ->
  tag_name camel_lookup xmlns c = Ok k ->
  (forall c', c' ∈ post -> tag_name camel_lookup xmlns c' <> Ok k) ->
  value c = Ok (FStr "None") /\
  Dict.get k d = Some (FStr "None") /\
  FStr "None" <> FStr EmptyString /\ FStr "None" <> FNone.
Proof.
  intros Hd Hch Hs Ht Hk Hno.
  assert (Hv : value c = Ok (FStr "None")).
  { unfold value. destruct (cls c); try discriminate. simpl. by rewrite Ht. }
  split; [done|]. split; [|done].
  unfold tag2dict in Hd. rewrite Hch in Hd.
  destruct (loop_last_wins _ _ _ _ _ _ _ _ Hd Hk Hno) as (v & Hv' & Hg).
  congruence.
Qed.

End Tag2DictValues.


(** The dictionary of [Examples.device_example]. *)
Lemma tag2dict_device_example :
  tag2dict Examples.device_example None (Some "ns")
  = Ok [("name", FStr "None"); ("ordinal_number", FInt 1);
        ("delay", FFloat (5, 1%nat)); ("sub", FNone)].
Proof. reflexivity. Qed.

Ltac no_later_key :=
  let c' := fresh "c" in
  let Hc := fresh "Hc" in
  intros c' Hc; rewrite ?elem_of_cons, elem_of_nil in Hc;
  repeat (destruct Hc as [->|Hc]; [vm_compute; discriminate|]);
  destruct Hc.

Lemma tag2dict_coerces_by_leaf_type_witness :
  exists k v,
    tag_name None (Some "ns") (Element "{ns}OrdinalNumber" IntElement (Some "1") []) = Ok k /\
    value (Element "{ns}OrdinalNumber" IntElement (Some "1") []) = Ok v /\
    ((forall c', c' ∈ [Element "{ns}Delay" FloatElement (Some "0.5") [];
                       Element "{ns}Name" StringElement None [];
                       Element "{ns}Sub" ObjectifiedElement None []] ->
        tag_name None (Some "ns") c' <> Ok k) ->
     Dict.get k [("name", FStr "None"); ("ordinal_number", FInt 1);
                 ("delay", FFloat (5, 1%nat)); ("sub", FNone)] = Some v).
Proof.
  exact (proj1 (proj2 (tag2dict_coerces_by_leaf_type
                         Examples.device_example None (Some "ns")))
           _ [Element "{ns}Name" StringElement (Some "QQQ") []] _ _
           eq_refl eq_refl).
Defined.

Lemma tag2dict_last_occurrence_wins_witness :
  Dict.get "name" [("name", FStr "None"); ("ordinal_number", FInt 1);
                   ("delay", FFloat (5, 1%nat)); ("sub", FNone)]
  = Some (FStr "None") /\
  NoDup ["name"; "ordinal_number"; "delay"; "sub"].
Proof.
  pose proof (tag2dict_last_occurrence_wins Examples.device_example None
                (Some "ns") _ eq_refl) as (Hnd & _ & Hlast).
  split; [|exact Hnd].
  destruct (Hlast [Element "{ns}Name" StringElement (Some "QQQ") [];
                   Element "{ns}OrdinalNumber" IntElement (Some "1") [];
                   Element "{ns}Delay" FloatElement (Some "0.5") []]
              (Element "{ns}Name" StringElement None [])
              [Element "{ns}Sub" ObjectifiedElement None []]
              "name" eq_refl eq_refl) as (v & Hv & Hg & _).
  - no_later_key.
  - vm_compute in Hv. injection Hv as <-. exact Hg.
Defined.

Lemma tag2dict_empty_string_leaf_witness :
  value (Element "{ns}Name" StringElement None []) = Ok (FStr "None") /\
  Dict.get "name" [("name", FStr "None"); ("ordinal_number", FInt 1);
                   ("delay", FFloat (5, 1%nat)); ("sub", FNone)]
  = Some (FStr "None") /\
  FStr "None" <> FStr EmptyString /\ FStr "None" <> FNone.
Proof.
  apply (tag2dict_empty_string_leaf Examples.device_example None (Some "ns") _
           [Element "{ns}Name" StringElement (Some "QQQ") [];
            Element "{ns}OrdinalNumber" IntElement (Some "1") [];
            Element "{ns}Delay" FloatElement (Some "0.5") []]
           [Element "{ns}Sub" ObjectifiedElement None []]
           (Element "{ns}Name" StringElement None []) "name");
    try reflexivity.
  no_later_key.
Defined.

(** ** Strings, [re.sub] and [camel_to_snake] *)

Lemma to_lower_not_upper (c : ascii) : is_upper (to_lower c) = false.
Proof. destruct c as [[] [] [] [] [] [] [] []]; reflexivity. Qed.

Lemma snake_char_not_upper (c : ascii) :
  is_lower c || is_digit c || (code c =? 95)%N = true -> negb (is_upper c) = true.
Proof. destruct c as [[] [] [] [] [] [] [] []]; vm_compute; congruence. Qed.

Lemma all_chars_impl (p q : ascii -> bool) (s : string) :
  (forall c, p c = true -> q c = true) ->
  Re.all_chars p s = true -> Re.all_chars q s = true.
Proof.
  intros Hpq. induction s as [|c r IH]; simpl; [done|].
  rewrite !andb_true_iff. intros [Hc Hr]. auto.
Qed.

Lemma snake_case_no_upper (s : string) : is_snake_case s = true -> no_upper s = true.
Proof. apply all_chars_impl, snake_char_not_upper. Qed.

Lemma lower_no_upper (s : string) : no_upper (lower s) = true.
Proof.
  induction s as [|c r IH]; simpl; [done|].
  unfold no_upper in *. simpl. by rewrite to_lower_not_upper, IH.
Qed.

Lemma lower_id (s : string) : no_upper s = true -> lower s = s.
Proof.
  unfold no_upper. induction s as [|c r IH]; simpl; [done|].
  rewrite andb_true_iff, negb_true_iff. intros [Hc Hr].
  unfold to_lower. by rewrite Hc, IH.
Qed.

Lemma word_boundary_no_upper (s : string) :
  no_upper s = true -> word_boundary s = None.
Proof.
  unfold no_upper. destruct s as [|c [|u [|l r]]]; simpl; try done.
  rewrite !andb_true_iff, !negb_true_iff. intros (_ & -> & _).
  by rewrite andb_false_r.
Qed.

Lemma letter_boundary_no_upper (s : string) :
  no_upper s = true -> letter_boundary s = None.
Proof.
  unfold no_upper. destruct s as [|a [|u r]]; simpl; try done.
  rewrite !andb_true_iff, !negb_true_iff. intros (_ & -> & _).
  by rewrite andb_false_r.
Qed.

Lemma sub_scan_no_match (m : string -> option (string * string)) :
  (forall s, no_upper s = true -> m s = None) ->
  forall fuel s, no_upper s = true -> Re.sub_scan m fuel s = s.
Proof.
  intros Hm. induction fuel as [|fuel IH]; intros s Hs; simpl; [done|].
  rewrite (Hm s Hs). destruct s as [|c r]; [done|].
  f_equal. apply IH. unfold no_upper in *. simpl in Hs.
  by apply andb_true_iff in Hs as [_ Hs].
Qed.

Lemma camel_to_snake_no_upper_id (n : string) :
  no_upper n = true -> camel_to_snake n = n.
Proof.
  intros Hn. unfold camel_to_snake, Re.sub.
  rewrite (sub_scan_no_match _ word_boundary_no_upper _ _ Hn).
  rewrite (sub_scan_no_match _ letter_boundary_no_upper _ _ Hn).
  by apply lower_id.
Qed.

Lemma camel_to_snake_no_upper (n : string) : no_upper (camel_to_snake n) = true.
Proof. apply lower_no_upper. Qed.

(** The scan of [Re.sub] has fuel to spare: once the fuel exceeds the
    length of the string, more fuel changes nothing. *)
Lemma span_snd_length (p : ascii -> bool) (s : string) :
  (String.length (Re.span p s).2 <= String.length s)%nat.
Proof.
  induction s as [|c r IH]; simpl; [done|].
  destruct (p c); [|simpl; lia].
  destruct (Re.span p r) as [a b]. simpl in *. lia.
Qed.

Lemma word_boundary_consumes s repl r :
  word_boundary s = Some (repl, r) -> (String.length r < String.length s)%nat.
Proof.
  destruct s as [|c [|u [|l t]]]; simpl; try done.
  destruct (_ && _); [|done].
  pose proof (span_snd_length is_lower t) as Hlen.
  destruct (Re.span is_lower t) as [a b]. intros [= _ <-]. simpl in *. lia.
Qed.

Lemma letter_boundary_consumes s repl r :
  letter_boundary s = Some (repl, r) -> (String.length r < String.length s)%nat.
Proof.
  destruct s as [|a [|u t]]; simpl; try done.
  destruct (_ && _); [|done]. intros [= _ <-]. simpl. lia.
Qed.

Lemma sub_scan_fuel (m : string -> option (string * string)) :
  (forall s repl r, m s = Some (repl, r) -> (String.length r < String.length s)%nat) ->
  forall n1 n2 s,
    (String.length s < n1)%nat -> (String.length s < n2)%nat ->
    Re.sub_scan m n1 s = Re.sub_scan m n2 s.
Proof.
  intros Hm. induction n1 as [|n1 IH]; intros n2 s H1 H2; [lia|].
  destruct n2 as [|n2]; [lia|]. simpl.
  destruct (m s) as [[repl r]|] eqn:Hms.
  - apply Hm in Hms. f_equal. apply IH; lia.
  - destruct s as [|c r]; [done|]. simpl in *. f_equal. apply IH; lia.
Qed.

Lemma atom_matches_self (c : ascii) :
  Re.atom_matches (if (code c =? 46)%N then Re.AnyChar else Re.Lit c) c = true.
Proof.
  destruct (code c =? 46)%N eqn:Hc; simpl.
  - apply N.eqb_eq in Hc. unfold is_newline. by rewrite Hc.
  - by apply bool_decide_eq_true.
Qed.

Lemma match_at_own_text (x : string) (p : list Re.atom) (s : string) :
  Re.match_at (Re.atoms x ++ p) (x +:+ s) = Re.match_at p s.
Proof.
  induction x as [|c r IH]; simpl; [done|].
  by rewrite atom_matches_self.
Qed.

Lemma sub_braced_prefix_present (x rest : string) :
  Re.in_fragment x = true ->
  Re.sub_braced_prefix x ("{" +:+ x +:+ "}" +:+ rest) = Ok rest.
Proof.
  intros Hx. unfold Re.sub_braced_prefix. rewrite Hx.
  change ("{" +:+ x +:+ "}" +:+ rest) with (String "{" (x +:+ String "}" rest)).
  cbn [Re.match_at Re.atom_matches]. rewrite bool_decide_eq_true_2 by done.
  rewrite match_at_own_text.
  cbn [Re.match_at Re.atom_matches]. by rewrite bool_decide_eq_true_2.
Qed.

Lemma sub_braced_prefix_no_brace (x t : string) :
  Re.in_fragment x = true ->
  (forall r, t <> String "{" r) ->
  Re.sub_braced_prefix x t = Ok t.
Proof.
  intros Hx Ht. unfold Re.sub_braced_prefix. rewrite Hx. simpl.
  destruct t as [|c r]; [done|].
  destruct (bool_decide ("{"%char = c)) eqn:Hc; [|done].
  apply bool_decide_eq_true in Hc. subst c. by destruct (Ht r).
Qed.

Lemma strip_namespace_total (xmlns : option string) (t : string) :
  xmlns_in_fragment xmlns = true -> exists n, strip_namespace xmlns t = Ok n.
Proof.
  destruct xmlns as [x|]; simpl; [|by exists t].
  destruct (bool_decide (x = EmptyString)); simpl; [by exists t|].
  intros Hx. unfold Re.sub_braced_prefix. rewrite Hx.
  destruct (Re.match_at _ t); eauto.
Qed.

(** ** [tag2dict]: keys *)

(** The key of a child is computed in three steps.  (a) Without a
    namespace argument (absent or empty) the tag is taken as it is; with
    one, a tag that starts with that namespace in braces loses it, and a
    tag without a leading brace is unchanged.  (b) With a lookup table,
    the name found there is the key.  (c) Otherwise the key is
    [camel_to_snake] of the name.  These keys are the keys of the
    dictionary [tag2dict] returns.  The computation gives a key for every
    tag, and [camel_to_snake] leaves a name without upper-case letters,
    in particular a snake_case name, unchanged, so applying it twice is
    the same as applying it once. *)
Theorem tag2dict_canonical_key `{FloatModel}
    (camel_lookup : option (gmap string string)) (xmlns : option string) :
  (forall t, strip_namespace None t = Ok t /\ strip_namespace (Some EmptyString) t = Ok t) /\
  (forall x rest, x <> EmptyString -> Re.in_fragment x = true ->
     strip_namespace (Some x) ("{" +:+ x +:+ "}" +:+ rest) = Ok rest) /\
  (forall x t, Re.in_fragment x = true -> (forall r, t <> String "{" r) ->
     strip_namespace (Some x) t = Ok t) /\
  (forall table n,
     canonical_key (Some table) n
     = match table !! n with Some k => k | None => camel_to_snake n end) /\
  (forall n, canonical_key None n = camel_to_snake n) /\
  (forall c, tag_name camel_lookup xmlns c
             = canonical_key camel_lookup <$> strip_namespace xmlns (tag c)) /\
  (forall element d, tag2dict element camel_lookup xmlns = Ok d ->
     exists ks, mapM (tag_name camel_lookup xmlns) (iterchildren element) = Ok ks /\
       Dict.keys d = Dict.first_occurrences [] ks) /\
  (xmlns_in_fragment xmlns = true ->
   forall c, exists k, tag_name camel_lookup xmlns c = Ok k) /\
  (forall n, camel_to_snake (camel_to_snake n) = camel_to_snake n) /\
  (forall n, no_upper n = true -> camel_to_snake n = n) /\
  (forall n, is_snake_case n = true -> camel_to_snake n = n).
Proof.
  repeat apply conj.
  - done.
  - intros x rest Hne Hx. unfold strip_namespace.
    rewrite bool_decide_eq_false_2 by done.
    by apply sub_braced_prefix_present.
  - intros x t Hx Ht. unfold strip_namespace.
    destruct (bool_decide (x = EmptyString)); [done|].
    by apply sub_braced_prefix_no_brace.
  - intros table n. unfold canonical_key. by destruct (table !! n).
  - done.
  - intros c. unfold tag_name. by destruct (strip_namespace xmlns (tag c)).
  - intros element d Hd. apply loop_keys in Hd as (ks & Hks & Hkeys). by exists ks.
  - intros Hx c. unfold tag_name.
    destruct (strip_namespace_total xmlns (tag c) Hx) as [n ->]. simpl. eauto.
  - intros n. apply camel_to_snake_no_upper_id, camel_to_snake_no_upper.
  - apply camel_to_snake_no_upper_id.
  - intros n Hn. by apply camel_to_snake_no_upper_id, snake_case_no_upper.
Qed.

Lemma tag2dict_canonical_key_witness :
  strip_namespace (Some "http://a.b/c") ("{" +:+ "http://a.b/c" +:+ "}" +:+ "DeviceID")
  = Ok "DeviceID" /\
  camel_to_snake "device_id" = "device_id" /\
  (exists k, tag_name (Some {["DeviceID" := "device"]}) (Some "http://a.b/c")
               (Element "{http://a.b/c}DeviceID" IntElement (Some "1") []) = Ok k).
Proof.
  pose proof (tag2dict_canonical_key (Some {["DeviceID" := "device"]})
                (Some "http://a.b/c")) as (_ & Ha & _ & _ & _ & _ & _ & Htot & _ & _ & Hsn).
  split; [|split].
  - apply Ha; [discriminate|reflexivity].
  - apply Hsn. reflexivity.
  - apply Htot. reflexivity.
Defined.

(** ** [XMLList] *)

Lemma mapM_Forall2 {A B} (f : A -> result B) (l : list A) (rs : list B) :
  mapM f l = Ok rs <-> Forall2 (fun x y => f x = Ok y) l rs.
Proof.
  revert rs. induction l as [|x l IH]; intros rs; simpl.
  - split.
    + intros [= <-]. constructor.
    + intros Hf. by inversion Hf.
  - split.
    + destruct (f x) as [y|e] eqn:Hx; [|done].
      destruct (mapM f l) as [ys|e] eqn:Hl; [|done].
      intros [= <-]. constructor; [done|]. by apply IH.
    + intros Hf. inversion Hf as [|? y ? ys Hx Hl]; subst.
      rewrite Hx. apply IH in Hl. by rewrite Hl.
Qed.

Section XMLListAppend.

Context `{FloatModel} `{ContentType R}.
Implicit Types (self : XMLList.t R) (e : element) (es : list element).

Abbreviation matching e :=
  (filter (fun c => tag c = _content_xml_name) (iterchildren e)).
Abbreviation built :=
  (Forall2 (fun (c : element) (r : R) => _content_type_from_xml c = Ok r)).

Lemma for_each_append items self self' :
  for_each _content_type_from_xml XMLList.append items self = (Ok tt, self') <->
  exists rs, built items rs /\
    self' = XMLList.Build (XMLList.version self) (XMLList.data self ++ rs).
Proof.
  revert self. induction items as [|c items IH]; intros self.
  - simpl. unfold ret. split.
    + intros [= <-]. exists []. split; [constructor|].
      rewrite app_nil_r. by destruct self.
    + intros (rs & Hrs & ->). inversion Hrs. rewrite app_nil_r. by destruct self.
  - cbn [for_each]. unfold bind at 1. unfold lift at 1.
    destruct (_content_type_from_xml c) as [r|x] eqn:Hc.
    + unfold bind at 1. cbn [XMLList.append]. rewrite IH. cbn.
      split.
      * intros (rs & Hrs & ->). exists (r :: rs). split; [by constructor|].
        by rewrite <- app_assoc.
      * intros (rs & Hrs & ->). inversion Hrs as [|? r' ? rs' Hr Hrs']; subst.
        exists rs'. split; [done|]. rewrite <- app_assoc. cbn.
        rewrite Hc in Hr. by injection Hr as ->.
    + split; [done|]. intros (rs & Hrs & _).
      inversion Hrs as [|? r' ? rs' Hr Hrs']; subst. congruence.
Qed.

Lemma append_from_element_ok e self self' :
  simple_name _content_xml_name = true ->
  XMLList._append_from_element e self = (Ok tt, self') <->
  exists rs, built (matching e) rs /\
    self' = XMLList.Build (XMLList.version self) (XMLList.data self ++ rs).
Proof.
  intros Hn. unfold XMLList._append_from_element, make_from_element, findall.
  rewrite Hn. unfold bind at 1. unfold lift at 1. apply for_each_append.
Qed.

Lemma append_all_ok es self self' :
  simple_name _content_xml_name = true ->
  XMLList.append_all es self = (Ok tt, self') <->
  exists rss, Forall2 (fun e rs => built (matching e) rs) es rss /\
    self' = XMLList.Build (XMLList.version self) (XMLList.data self ++ concat rss).
Proof.
  intros Hn. revert self. induction es as [|e es IH]; intros self.
  - simpl. unfold ret. split.
    + intros [= <-]. exists []. split; [constructor|].
      simpl. rewrite app_nil_r. by destruct self.
    + intros (rss & Hrss & ->). inversion Hrss. simpl.
      rewrite app_nil_r. by destruct self.
  - cbn [XMLList.append_all]. unfold bind at 1.
    destruct (XMLList._append_from_element e self) as [[[]|x] self1] eqn:He.
    + apply (append_from_element_ok _ _ _ Hn) in He as (rs & Hrs & ->).
      rewrite IH. cbn. split.
      * intros (rss & Hrss & ->). exists (rs :: rss). split; [by constructor|].
        simpl. by rewrite <- app_assoc.
      * intros (rss & Hrss & ->). inversion Hrss as [|? rs' ? rss' Hrs' Hrss']; subst.
        exists rss'. split; [done|]. simpl. rewrite <- app_assoc.
        assert (rs' = rs) as ->; [|done].
        clear -Hrs Hrs'. revert rs Hrs. induction Hrs' as [|c r cs rs' Hc _ IH'];
          intros rs Hrs; inversion Hrs; subst; [done|].
        f_equal; [congruence|]. by apply IH'.
    + split; [done|]. intros (rss & Hrss & ->).
      inversion Hrss as [|? rs' ? rss' Hrs' Hrss']; subst.
      assert (Hok : XMLList._append_from_element e self
                    = (Ok (), XMLList.Build (XMLList.version self)
                                (XMLList.data self ++ rs'))).
      { apply append_from_element_ok; [done|]. by exists rs'. }
      congruence.
Qed.

Lemma built_lengths es (rss : list (list R)) :
  Forall2 (fun e rs => built (matching e) rs) es rss ->
  length (concat rss) = sum_list (map (fun e => length (matching e)) es).
Proof.
  induction 1 as [|e rs es rss Hrs _ IH]; simpl; [done|].
  rewrite length_app, IH. f_equal. symmetry. by eapply Forall2_length.
Qed.

(** C3.  A sequence of [_append_from_element] calls that raises nothing
    leaves the list with its former records followed, call after call
    in the order of the calls, by one record per child whose tag is the
    bound child tag, each built by the record type's [from_xml] and in
    document order; such a run exists exactly when every one of those
    children can be built.  So the length grows by the total number of
    matching children, and a list fresh from [from_xml] ends with exactly
    that many records.  A call that matches no child leaves the list
    unchanged and raises nothing. *)
Theorem append_from_element_length es self :
  simple_name _content_xml_name = true ->
  (forall self',
     XMLList.append_all es self = (Ok tt, self') <->
     exists rss, Forall2 (fun e rs => built (matching e) rs) es rss /\
       self' = XMLList.Build (XMLList.version self) (XMLList.data self ++ concat rss)) /\
  (forall self',
     XMLList.append_all es self = (Ok tt, self') ->
     length (XMLList.data self')
     = (length (XMLList.data self)
        + sum_list (map (fun e => length (matching e)) es))%nat) /\
  (forall root self',
     XMLList.from_xml root = Ok self ->
     XMLList.append_all es self = (Ok tt, self') ->
     length (XMLList.data self')
     = sum_list (map (fun e => length (matching e)) es)) /\
  (forall e, matching e = [] ->
     XMLList._append_from_element e self = (Ok tt, self)).
Proof.
  intros Hn.
  assert (Hlen : forall self',
     XMLList.append_all es self = (Ok tt, self') ->
     length (XMLList.data self')
     = (length (XMLList.data self)
        + sum_list (map (fun e => length (matching e)) es))%nat).
  { intros self' Hrun. apply (append_all_ok _ _ _ Hn) in Hrun as (rss & Hrss & ->).
    cbn. rewrite length_app. f_equal. by apply built_lengths. }
  split; [|split; [|split]].
  - intros self'. by apply append_all_ok.
  - exact Hlen.
  - intros root self' Hroot Hrun. rewrite (Hlen _ Hrun).
    unfold XMLList.from_xml, XMLList.__init__ in Hroot.
    destruct (getattr root "Version") as [v|x]; [|done]. simpl in Hroot.
    destruct (int_of_element v) as [z|x]; [|done]. simpl in Hroot.
    by injection Hroot as <-.
  - intros e He. apply append_from_element_ok; [done|].
    exists []. rewrite He. split; [constructor|].
    rewrite app_nil_r. by destruct self.
Qed.

End XMLListAppend.

Lemma append_from_element_length_witness :
  length (XMLList.data (XMLList.Build 1 ["QQQ"; "GC"])) = 2%nat.
Proof.
  exact (proj1 (proj2 (proj2
           (append_from_element_length (R := string)
              [Examples.devices_example] (XMLList.Build 1 []) eq_refl)))
           Examples.devices_example (XMLList.Build 1 ["QQQ"; "GC"])
           eq_refl eq_refl).
Defined.

Section XMLListVersion.

Context `{FloatModel} {R : Type}.

(** C5, as the code has it.  [from_xml] takes the first [Version] child
    in the namespace of the root.  Without one it raises
    [AttributeError]; with one, it succeeds exactly when [int] converts
    that child, and the stored version is the resulting integer, with no
    records.  A string- or integer-typed child whose text is not an
    integer literal raises [ValueError], a child that is a container or a
    null element raises [TypeError]; a boolean-typed child with text
    [true] or [false] converts to 1 or 0. *)
Theorem from_xml_version (element : element) :
  ((forall c, c ∈ iterchildren element ->
      tag c <> ns_prefix (tag element) +:+ "Version") ->
   XMLList.from_xml (R := R) element = Raise AttributeError) /\
  (forall v, getattr element "Version" = Ok v ->
     XMLList.from_xml (R := R) element
     = (fun z => XMLList.Build z []) <$> int_of_element v) /\
  (forall l, XMLList.from_xml (R := R) element = Ok l ->
     exists v z, getattr element "Version" = Ok v /\ int_of_element v = Ok z /\
       l = XMLList.Build z []) /\
  (forall v s, getattr element "Version" = Ok v ->
     cls v = IntElement \/ cls v = StringElement ->
     text v = Some s -> int_of_str s = Raise ValueError ->
     XMLList.from_xml (R := R) element = Raise ValueError) /\
  (forall v, getattr element "Version" = Ok v ->
     cls v = ObjectifiedElement \/ cls v = NoneElement ->
     XMLList.from_xml (R := R) element = Raise TypeError) /\
  (forall v, getattr element "Version" = Ok v -> cls v = BoolElement ->
     (text v = Some "true" -> XMLList.from_xml (R := R) element = Ok (XMLList.Build 1 [])) /\
     (text v = Some "false" -> XMLList.from_xml (R := R) element = Ok (XMLList.Build 0 []))).
Proof.
  assert (Hstep : forall v, getattr element "Version" = Ok v ->
     XMLList.from_xml (R := R) element
     = (fun z => XMLList.Build z []) <$> int_of_element v).
  { intros v Hv. unfold XMLList.from_xml, XMLList.__init__. rewrite Hv. simpl.
    by destruct (int_of_element v). }
  split; [|split; [|split; [|split; [|split]]]].
  - intros Hno. unfold XMLList.from_xml, getattr.
    destruct (list_find _ _) as [[i c]|] eqn:Hf; [|done].
    apply list_find_Some in Hf as (Hl & Hc & _).
    destruct (Hno c); [by eapply list_elem_of_lookup_2|done].
  - exact Hstep.
  - intros l Hl. destruct (getattr element "Version") as [v|x] eqn:Hv.
    + rewrite (Hstep v eq_refl) in Hl.
      destruct (int_of_element v) as [z|x] eqn:Hz; [|done].
      injection Hl as <-. by exists v, z.
    + unfold XMLList.from_xml in Hl. by rewrite Hv in Hl.
  - intros v s Hv Hc Ht Hs. rewrite (Hstep v Hv). unfold int_of_element.
    destruct Hc as [-> | ->]; rewrite Ht; simpl; by rewrite Hs.
  - intros v Hv Hc. rewrite (Hstep v Hv). unfold int_of_element.
    by destruct Hc as [-> | ->].
  - intros v Hv Hc. rewrite (Hstep v Hv). unfold int_of_element. rewrite Hc.
    split; by intros ->.
Qed.

End XMLListVersion.

(** C5 as the specification states it does not hold: a [Version] whose
    text is [true] is not a number, and the construction succeeds with
    version 1. *)
Lemma from_xml_non_numeric_version_counterexample :
  ~ (forall (root v : element),
       getattr root "Version" = Ok v ->
       XMLList.numeric_text (text v) = false ->
       is_ok (XMLList.from_xml (R := string) root) = false).
Proof.
  intros Hclaim.
  specialize (Hclaim Examples.boolean_version_example
                (Element "Version" BoolElement (Some "true") []) eq_refl eq_refl).
  discriminate Hclaim.
Qed.

Lemma from_xml_version_witness :
  XMLList.from_xml (R := string) Examples.boolean_version_example
  = Ok (XMLList.Build 1 []) /\
  XMLList.from_xml (R := string)
    (Element "Devices" ObjectifiedElement None
       [Element "Version" StringElement (Some "beta") []])
  = Raise ValueError /\
  XMLList.from_xml (R := string) (Element "Devices" ObjectifiedElement None [])
  = Raise AttributeError.
Proof.
  split; [|split].
  - apply (proj2 (proj2 (proj2 (proj2 (proj2
             (from_xml_version Examples.boolean_version_example)))))
             (Element "Version" BoolElement (Some "true") []));
      reflexivity.
  - apply (proj1 (proj2 (proj2 (proj2
             (from_xml_version
                (Element "Devices" ObjectifiedElement None
                   [Element "Version" StringElement (Some "beta") []])))))
             (Element "Version" StringElement (Some "beta") []) "beta");
      try reflexivity.
    by right.
  - apply (proj1 (from_xml_version (Element "Devices" ObjectifiedElement None []))).
    intros c Hc. by apply elem_of_nil in Hc.
Defined.

Section XMLListOperations.

Context `{FloatModel} `{ContentType R}.
Implicit Types (self : XMLList.t R).

Lemma for_each_append_extends items self :
  exists rs,
    (for_each _content_type_from_xml XMLList.append items self).2
    = XMLList.Build (XMLList.version self) (XMLList.data self ++ rs).
Proof.
  revert self. induction items as [|c items IH]; intros self.
  - exists []. simpl. rewrite app_nil_r. by destruct self.
  - cbn [for_each]. unfold bind at 1. unfold lift at 1.
    destruct (_content_type_from_xml c) as [r|x].
    + unfold bind at 1. cbn [XMLList.append].
      destruct (IH (XMLList.Build (XMLList.version self) (XMLList.data self ++ [r])))
        as (rs & ->).
      exists (r :: rs). cbn. by rewrite <- app_assoc.
    + exists []. simpl. rewrite app_nil_r. by destruct self.
Qed.

Lemma append_from_element_extends e self :
  exists rs,
    (XMLList._append_from_element e self).2
    = XMLList.Build (XMLList.version self) (XMLList.data self ++ rs).
Proof.
  unfold XMLList._append_from_element, make_from_element.
  unfold bind at 1. unfold lift at 1.
  destruct (findall e _content_xml_name) as [items|x].
  - apply for_each_append_extends.
  - exists []. simpl. rewrite app_nil_r. by destruct self.
Qed.

(** C9, as the code has it.  No operation of the list changes [version],
    which [from_xml] takes from the [Version] child, and
    [_append_from_element] only adds records after the ones present,
    whether or not it raises.  The records are nonetheless an ordinary
    mutable list: [append] adds a record and an assignment at a valid
    index replaces one. *)
Theorem xmllist_version_preserved (o : XMLList.op R) self :
  XMLList.version (XMLList.run o self).2 = XMLList.version self /\
  (forall root (l : XMLList.t R), XMLList.from_xml root = Ok l ->
     exists v, getattr root "Version" = Ok v /\
       int_of_element v = Ok (XMLList.version l)) /\
  (forall e, exists rs,
     (XMLList._append_from_element e self).2
     = XMLList.Build (XMLList.version self) (XMLList.data self ++ rs)) /\
  (forall item,
     XMLList.append item self
     = (Ok tt, XMLList.Build (XMLList.version self) (XMLList.data self ++ [item]))) /\
  (forall i item, 0 <= i < Z.of_nat (length (XMLList.data self)) ->
     XMLList.__setitem__ i item self
     = (Ok tt, XMLList.Build (XMLList.version self)
                 (<[Z.to_nat i := item]> (XMLList.data self)))).
Proof.
  split; [|split; [|split; [|split]]].
  - destruct o as [item|i item|e]; cbn [XMLList.run].
    + done.
    + unfold XMLList.__setitem__. by destruct (_ && _).
    + destruct (append_from_element_extends e self) as (rs & ->). done.
  - intros root l Hl. unfold XMLList.from_xml, XMLList.__init__ in Hl.
    destruct (getattr root "Version") as [v|x]; [|done]. simpl in Hl.
    destruct (int_of_element v) as [z|x] eqn:Hz; [|done]. simpl in Hl.
    injection Hl as <-. by exists v.
  - intros e. apply append_from_element_extends.
  - done.
  - intros i item Hi. unfold XMLList.__setitem__.
    destruct (i <? 0) eqn:Hneg; [lia|].
    replace ((0 <=? i) && (i <? Z.of_nat (length (XMLList.data self)))) with true; [done|].
    symmetry. apply andb_true_iff. split; [apply Z.leb_le|apply Z.ltb_lt]; lia.
Qed.

End XMLListOperations.

(** C9 as the specification states it does not hold: the records change
    through an operation other than [_append_from_element]. *)
Lemma xmllist_records_mutable_counterexample :
  ~ (forall (self : XMLList.t string) (o : XMLList.op string),
       XMLList.data (XMLList.run o self).2 <> XMLList.data self ->
       exists e, o = XMLList.AppendFromElement e).
Proof.
  intros Hclaim.
  destruct (Hclaim (XMLList.Build 1 ["QQQ"]) (XMLList.SetItem 0 "GC")) as [e He].
  - discriminate.
  - discriminate He.
Qed.

Lemma xmllist_version_preserved_witness :
  XMLList.__setitem__ (-1) "GC" (XMLList.Build 1 ["QQQ"; "TOF"])
  = (Ok tt, XMLList.Build 1 ["QQQ"; "GC"]) /\
  XMLList.__setitem__ 0 "GC" (XMLList.Build 1 ["QQQ"; "TOF"])
  = (Ok tt, XMLList.Build 1 ["GC"; "TOF"]).
Proof.
  split; [reflexivity|].
  apply (proj2 (proj2 (proj2 (proj2
           (xmllist_version_preserved (R := string)
              (XMLList.Append "x") (XMLList.Build 1 ["QQQ"; "TOF"]))))) 0 "GC").
  simpl. lia.
Defined.

(** ** [extract_metadata] *)

Section ExtractMetadata.

Import Metadata.

Context `{Parsers}.
Variable fs : gmap string node.

Lemma parse_files_fails_or_complete dir names out log0 r log1 :
  parse_files fs dir names out log0 = (r, log1) ->
  forall d, r = Ok d -> Dict.keys d
    = Dict.keys out ++ Dict.first_occurrences (Dict.keys out) names.
Proof.
  revert out log0. induction names as [|name rest IH]; intros out log0.
  - simpl. unfold ret. intros [= <- <-] d [= <-]. simpl. by rewrite app_nil_r.
  - cbn [parse_files]. unfold bind at 1. unfold log at 1.
    destruct (fs !! expected_file dir name) as [[|content]|].
    + unfold lift. by intros [= <- <-] d.
    + unfold bind at 1. unfold lift at 1.
      destruct (parse name content) as [obj|x].
      * intros Hrun d Hd. rewrite (IH _ _ Hrun d Hd).
        rewrite dict_keys_setitem. cbn [Dict.first_occurrences].
        destruct (decide (name ∈ Dict.keys out)); [done|].
        by rewrite <- app_assoc.
      * by intros [= <- <-] d.
    + unfold lift. by intros [= <- <-] d.
Qed.

(** C4.  An argument that is not path-like is rejected with [TypeError]
    before the file system is looked at.  A path that does not name an
    existing directory whose name ends in the datafile extension is
    rejected with [ValueError] without any file being read.  In neither
    case is a mapping returned, and a mapping that is returned has all
    eight logical names. *)
Theorem extract_metadata_rejects (path : pyarg) (log0 : list io_event) :
  (is_path_type path = false ->
   extract_metadata fs path log0 = (Raise TypeError, log0)) /\
  (is_path_type path = true ->
   ~ (fs !! path_of path = Some Dir /\ ends_with extension (path_of path) = true) ->
   extract_metadata fs path log0 = (Raise ValueError, Stat (path_of path) :: log0) /\
   is_read (Stat (path_of path)) = false) /\
  (forall d log1, extract_metadata fs path log0 = (Ok d, log1) ->
     is_path_type path = true /\
     fs !! path_of path = Some Dir /\ ends_with extension (path_of path) = true /\
     Dict.keys d = logical_names).
Proof.
  split; [|split].
  - destruct path; try discriminate; done.
  - intros Hp Hno. split; [|done].
    assert (Hcheck : match fs !! path_of path with
                     | Some Dir => ends_with extension (path_of path)
                     | _ => false
                     end = false).
    { destruct (fs !! path_of path) as [[|content]|]; try done.
      destruct (ends_with extension (path_of path)); [|done].
      by destruct Hno. }
    destruct path as [p|p|z|l]; try discriminate;
      unfold extract_metadata, is_datafile; unfold bind at 1; unfold bind at 1;
      unfold log at 1; unfold ret; simpl in Hcheck; by rewrite Hcheck.
  - intros d log1 Hrun.
    destruct path as [p|p|z|l]; try (by inversion Hrun);
      unfold extract_metadata, is_datafile in Hrun; unfold bind at 1 in Hrun;
      unfold bind at 1 in Hrun; unfold log at 1 in Hrun; unfold ret in Hrun;
      simpl;
      (destruct (fs !! p) as [[|content]|]; [|by inversion Hrun..]);
      (destruct (ends_with extension p); [|by inversion Hrun]);
      (split; [done|]); (split; [done|]); (split; [done|]);
      apply (parse_files_fails_or_complete _ _ _ _ _ _ Hrun d eq_refl).
Qed.

End ExtractMetadata.

Lemma extract_metadata_rejects_witness :
  Metadata.extract_metadata {["tests" := Metadata.Dir]} (Metadata.AInt 1234) []
  = (Raise TypeError, []) /\
  Metadata.extract_metadata {["tests" := Metadata.Dir]} (Metadata.APath "tests") []
  = (Raise ValueError, [Metadata.Stat "tests"]).
Proof.
  split.
  - apply (proj1 (extract_metadata_rejects {["tests" := Metadata.Dir]}
                    (Metadata.AInt 1234) [])).
    reflexivity.
  - apply (proj1 (proj2 (extract_metadata_rejects {["tests" := Metadata.Dir]}
                           (Metadata.APath "tests") []))); [reflexivity|].
    intros [_ Hext]. vm_compute in Hext. discriminate Hext.
Defined.

(** ** The model on concrete inputs *)

Example camel_to_snake_examples :
  camel_to_snake "DeviceID" = "device_id" /\
  camel_to_snake "HTTPResponseCode" = "http_response_code" /\
  camel_to_snake "aBcDe" = "a_bc_de" /\
  camel_to_snake "sample_name" = "sample_name".
Proof. repeat split; reflexivity. Qed.

Example int_of_str_examples :
  int_of_str "  -1_000 " = Ok (-1000) /\
  int_of_str "007" = Ok 7 /\
  int_of_str "true" = Raise ValueError /\
  int_of_str "1__0" = Raise ValueError.
Proof. repeat split; reflexivity. Qed.

Example append_from_element_example :
  XMLList._append_from_element (R := string) Examples.devices_example
    (XMLList.Build 1 [])
  = (Ok tt, XMLList.Build 1 ["QQQ"; "GC"]).
Proof. reflexivity. Qed.

(** * Further properties of the code *)

(** ** [_append_from_element]: failure and repetition *)

Section XMLListFailure.

Context `{ContentType R}.
Implicit Types (self : XMLList.t R) (e : element).

Abbreviation matching' e :=
  (filter (fun c => tag c = _content_xml_name) (iterchildren e)).
Abbreviation built' :=
  (Forall2 (fun (c : element) (r : R) => _content_type_from_xml c = Ok r)).

Lemma for_each_append_raises pre c post rs x self :
  built' pre rs ->
  _content_type_from_xml c = Raise x ->
  for_each _content_type_from_xml XMLList.append (pre ++ c :: post) self
  = (Raise x, XMLList.Build (XMLList.version self) (XMLList.data self ++ rs)).
Proof.
  intros Hpre Hc. revert self.
  induction Hpre as [|c' r pre rs Hc' _ IH]; intros self.
  - cbn [app for_each]. unfold bind at 1. unfold lift at 1. rewrite Hc.
    rewrite app_nil_r. by destruct self.
  - cbn [app for_each]. unfold bind at 1. unfold lift at 1. rewrite Hc'.
    unfold bind at 1. cbn [XMLList.append]. rewrite IH. cbn.
    by rewrite <- app_assoc.
Qed.

(** When the record of a matching child cannot be built, the exception
    of its [from_xml] propagates and the list keeps the records built
    from the matching children before it: nothing is rolled back, and
    the children after it are not looked at. *)
Theorem append_from_element_keeps_partial e self pre c post rs x :
  simple_name _content_xml_name = true ->
  matching' e = pre ++ c :: post ->
  built' pre rs ->
  _content_type_from_xml c = Raise x ->
  XMLList._append_from_element e self
  = (Raise x, XMLList.Build (XMLList.version self) (XMLList.data self ++ rs)).
Proof.
  intros Hn Hm Hpre Hc.
  unfold XMLList._append_from_element, make_from_element, findall.
  rewrite Hn. unfold bind at 1. unfold lift at 1. rewrite Hm.
  by apply for_each_append_raises.
Qed.

(** Calling [_append_from_element] twice with the same element appends
    the records twice: the call does not check what the list holds. *)
Theorem append_from_element_twice e self rs :
  simple_name _content_xml_name = true ->
  built' (matching' e) rs ->
  bind (XMLList._append_from_element e)
       (fun _ => XMLList._append_from_element e) self
  = (Ok tt, XMLList.Build (XMLList.version self) (XMLList.data self ++ rs ++ rs)).
Proof.
  intros Hn Hrs.
  assert (Hone : forall s, XMLList._append_from_element e s
                 = (Ok tt, XMLList.Build (XMLList.version s) (XMLList.data s ++ rs))).
  { intros s. unfold XMLList._append_from_element, make_from_element, findall.
    rewrite Hn. unfold bind at 1. unfold lift at 1.
    apply for_each_append. by exists rs. }
  unfold bind. rewrite Hone, Hone. cbn. by rewrite <- app_assoc.
Qed.

End XMLListFailure.

(** A record type whose constructor needs a [Name] child. *)
Lemma append_from_element_keeps_partial_witness :
  XMLList._append_from_element (R := string)
    (Element "Devices" ObjectifiedElement None
       [Element "Device" ObjectifiedElement None
          [Element "Name" StringElement (Some "QQQ") []];
        Element "Device" ObjectifiedElement None [];
        Element "Device" ObjectifiedElement None
          [Element "Name" StringElement (Some "GC") []]])
    (XMLList.Build 1 [])
  = (Raise AttributeError, XMLList.Build 1 ["QQQ"]).
Proof.
  refine (append_from_element_keeps_partial (R := string)
           (Element "Devices" ObjectifiedElement None
              [Element "Device" ObjectifiedElement None
                 [Element "Name" StringElement (Some "QQQ") []];
               Element "Device" ObjectifiedElement None [];
               Element "Device" ObjectifiedElement None
                 [Element "Name" StringElement (Some "GC") []]])
           (XMLList.Build 1 [])
           [Element "Device" ObjectifiedElement None
              [Element "Name" StringElement (Some "QQQ") []]]
           (Element "Device" ObjectifiedElement None [])
           [Element "Device" ObjectifiedElement None
              [Element "Name" StringElement (Some "GC") []]]
           ["QQQ"] AttributeError eq_refl eq_refl _ eq_refl).
  repeat constructor.
Defined.

Lemma append_from_element_twice_witness :
  bind (XMLList._append_from_element (R := string) Examples.devices_example)
       (fun _ => XMLList._append_from_element Examples.devices_example)
       (XMLList.Build 1 [])
  = (Ok tt, XMLList.Build 1 ["QQQ"; "GC"; "QQQ"; "GC"]).
Proof.
  refine (append_from_element_twice (R := string) Examples.devices_example
            (XMLList.Build 1 []) ["QQQ"; "GC"] eq_refl _).
  repeat constructor.
Defined.

(** ** [tag2dict]: exceptions *)

Section Tag2DictFailure.

Context `{FloatModel}.
Variable camel_lookup : option (gmap string string).
Variable xmlns : option string.

Abbreviation loop' := (tag2dict_loop camel_lookup xmlns).
Abbreviation key' := (tag_name camel_lookup xmlns).

Lemma loop_raise tags d0 x :
  loop' tags d0 = Raise x <->
  exists pre c post,
    tags = pre ++ c :: post /\
    (forall c', c' ∈ pre -> is_ok (key' c') = true /\ is_ok (value c') = true) /\
    (key' c = Raise x \/ (is_ok (key' c) = true /\ value c = Raise x)).
Proof.
  revert d0. induction tags as [|c tags IH]; intros d0.
  - simpl. split; [done|]. intros (pre & c & post & Heq & _). by destruct pre.
  - simpl. destruct (key' c) as [k|e] eqn:Hk; simpl.
    + destruct (value c) as [v|e] eqn:Hv; simpl.
      * rewrite IH. split.
        -- intros (pre & c0 & post & -> & Hpre & Hc0).
           exists (c :: pre), c0, post. split; [done|]. split; [|done].
           intros c' Hc'. apply elem_of_cons in Hc' as [->|Hc'].
           ++ by rewrite Hk, Hv.
           ++ by apply Hpre.
        -- intros (pre & c0 & post & Heq & Hpre & Hc0).
           destruct pre as [|c1 pre]; simpl in Heq; injection Heq as <- ->.
           ++ rewrite Hk, Hv in Hc0. by destruct Hc0 as [?|[_ ?]].
           ++ exists pre, c0, post. split; [done|]. split; [|done].
              intros c' Hc'. apply Hpre. apply elem_of_cons. by right.
      * split.
        -- intros [= ->]. exists [], c, tags. split; [done|].
           split; [intros c' Hc'; by apply elem_of_nil in Hc'|].
           right. by rewrite Hk.
        -- intros (pre & c0 & post & Heq & Hpre & Hc0).
           destruct pre as [|c1 pre]; simpl in Heq; injection Heq as <- ->.
           ++ rewrite Hk, Hv in Hc0. destruct Hc0 as [?|[_ ?]]; congruence.
           ++ destruct (Hpre c) as [_ Hbad]; [apply elem_of_cons; by left|].
              by rewrite Hv in Hbad.
    + split.
      * intros [= ->]. exists [], c, tags. split; [done|].
        split; [intros c' Hc'; by apply elem_of_nil in Hc'|]. by left.
      * intros (pre & c0 & post & Heq & Hpre & Hc0).
        destruct pre as [|c1 pre]; simpl in Heq; injection Heq as <- ->.
        -- rewrite Hk in Hc0. destruct Hc0 as [?|[? _]]; [congruence|done].
        -- destruct (Hpre c) as [Hbad _]; [apply elem_of_cons; by left|].
           by rewrite Hk in Hbad.
Qed.




(** [tag2dict] raises the exception of the first child, in document
    order, whose key or value cannot be computed; the children after it
    play no part, and no mapping is returned. *)
Theorem tag2dict_first_failure (element : element) x :
  tag2dict element camel_lookup xmlns = Raise x <->
  exists pre c post,
    iterchildren element = pre ++ c :: post /\
    (forall c', c' ∈ pre ->
       is_ok (tag_name camel_lookup xmlns c') = true /\ is_ok (value c') = true) /\
    (tag_name camel_lookup xmlns c = Raise x \/
     (is_ok (tag_name camel_lookup xmlns c) = true /\ value c = Raise x)).
Proof. apply loop_raise. Qed.


(** A boolean-typed child whose text is [true] or [false] makes
    [tag2dict] raise, wherever it stands among the children:
    [BoolElement] is an [IntElement], and [int] rejects those texts. *)
Theorem tag2dict_boolean_leaf_raises (element c : Lxml.element) :
  c ∈ iterchildren element ->
  cls c = BoolElement ->
  text c = Some "true" \/ text c = Some "false" ->
  exists x, tag2dict element camel_lookup xmlns = Raise x.
Proof.
  intros Hin Hc Ht.
  destruct (tag2dict element camel_lookup xmlns) as [d|x] eqn:Hr; [|by exists x].
  exfalso.
  assert (Hok : is_ok (tag2dict element camel_lookup xmlns) = true) by by rewrite Hr.
  pose proof (proj1 (loop_is_ok _ _ _ _) Hok) as Hall.
  destruct (Hall c Hin) as [_ Hv].
  unfold value in Hv. rewrite Hc in Hv. simpl in Hv.
  destruct Ht as [Ht|Ht]; rewrite Ht in Hv; discriminate Hv.
Qed.

End Tag2DictFailure.

Lemma tag2dict_first_failure_witness :
  tag2dict
    (Element "Device" ObjectifiedElement None
       [Element "Name" StringElement (Some "QQQ") [];
        Element "OrdinalNumber" IntElement (Some "one") [];
        Element "Delay" FloatElement None []])
    None None
  = Raise ValueError.
Proof.
  apply (proj2 (tag2dict_first_failure None None
                  (Element "Device" ObjectifiedElement None
                     [Element "Name" StringElement (Some "QQQ") [];
                      Element "OrdinalNumber" IntElement (Some "one") [];
                      Element "Delay" FloatElement None []])
                  ValueError)).
  exists [Element "Name" StringElement (Some "QQQ") []],
         (Element "OrdinalNumber" IntElement (Some "one") []),
         [Element "Delay" FloatElement None []].
  split; [reflexivity|]. split.
  - intros c Hc. apply list_elem_of_singleton in Hc. subst c. split; reflexivity.
  - right. split; reflexivity.
Defined.


Lemma tag2dict_boolean_leaf_raises_witness :
  exists x,
    tag2dict
      (Element "Device" ObjectifiedElement None
         [Element "Name" StringElement (Some "QQQ") [];
          Element "Enabled" BoolElement (Some "true") []])
      None None
    = Raise x.
Proof.
  apply (tag2dict_boolean_leaf_raises None None
           (Element "Device" ObjectifiedElement None
              [Element "Name" StringElement (Some "QQQ") [];
               Element "Enabled" BoolElement (Some "true") []])
           (Element "Enabled" BoolElement (Some "true") [])).
  - apply elem_of_cons. right. apply elem_of_cons. by left.
  - reflexivity.
  - by left.
Defined.

(** ** [tag2dict]: which keys the mapping has *)

Lemma first_occurrences_elem (seen ks : list string) (k : string) :
  k ∈ Dict.first_occurrences seen ks <-> k ∈ ks /\ k ∉ seen.
Proof.
  revert seen. induction ks as [|k0 ks IH]; intros seen; simpl.
  - split; [intros Hk; by apply elem_of_nil in Hk|].
    intros [Hk _]. by apply elem_of_nil in Hk.
  - destruct (decide (k0 ∈ seen)) as [Hin|Hnin].
    + rewrite IH, elem_of_cons. split.
      * intros [? ?]. auto.
      * intros [[->|?] ?]; [done|auto].
    + rewrite elem_of_cons, IH, elem_of_cons, elem_of_app, list_elem_of_singleton.
      split.
      * intros [->|[? Hns]]; [auto|]. split; [auto|]. intros ?. apply Hns. by left.
      * intros [[->|Hk] Hns]; [by left|].
        destruct (decide (k = k0)) as [->|Hne]; [by left|].
        right. split; [done|]. intros [?|?]; done.
Qed.

Lemma first_occurrences_NoDup (seen ks : list string) :
  NoDup ks -> (forall k, k ∈ ks -> k ∉ seen) ->
  Dict.first_occurrences seen ks = ks.
Proof.
  revert seen. induction ks as [|k0 ks IH]; intros seen Hnd Hdisj; simpl; [done|].
  apply NoDup_cons in Hnd as [Hk0 Hnd].
  rewrite decide_False by (apply Hdisj, elem_of_cons; by left).
  f_equal. apply IH; [done|]. intros k Hk.
  rewrite elem_of_app, list_elem_of_singleton. intros [Hs| ->]; [|done].
  apply (Hdisj k); [|done]. apply elem_of_cons. by right.
Qed.

Lemma mapM_elem {A B} (f : A -> result B) (l : list A) (rs : list B) (y : B) :
  mapM f l = Ok rs -> (y ∈ rs <-> exists x, x ∈ l /\ f x = Ok y).
Proof.
  revert rs. induction l as [|a l IH]; intros rs; simpl.
  - intros [= <-]. split; [intros Hy; by apply elem_of_nil in Hy|].
    intros (x & Hx & _). by apply elem_of_nil in Hx.
  - destruct (f a) as [b|e] eqn:Ha; [|done].
    destruct (mapM f l) as [bs|e] eqn:Hl; [|done].
    intros [= <-]. rewrite elem_of_cons, (IH bs eq_refl). split.
    + intros [->|(x & Hx & Hfx)].
      * exists a. split; [apply elem_of_cons; by left|done].
      * exists x. split; [apply elem_of_cons; by right|done].
    + intros (x & Hx & Hfx). apply elem_of_cons in Hx as [->|Hx].
      * left. congruence.
      * right. by exists x.
Qed.

Lemma dict_get_None_keys {V} (d : Dict.t V) (k : string) :
  Dict.get k d = None <-> k ∉ Dict.keys d.
Proof.
  unfold Dict.keys. induction d as [|[k0 v0] r IH]; simpl.
  - split; [intros _; apply not_elem_of_nil|done].
  - destruct (decide (k = k0)) as [->|Hne].
    + split; [done|]. intros Hno. destruct Hno. apply elem_of_cons. by left.
    + rewrite IH, elem_of_cons. split; [intros ? [?|?]; done|auto].
Qed.

Section Tag2DictKeys.

Context `{FloatModel}.
Variable camel_lookup : option (gmap string string).
Variable xmlns : option string.

Lemma loop_distinct_keys tags d0 d :
  tag2dict_loop camel_lookup xmlns tags d0 = Ok d ->
  forall ks, mapM (tag_name camel_lookup xmlns) tags = Ok ks ->
  NoDup ks -> (forall k, k ∈ ks -> k ∉ Dict.keys d0) ->
  exists kvs,
    Forall2 (fun c kv => tag_name camel_lookup xmlns c = Ok kv.1 /\ value c = Ok kv.2)
      tags kvs /\
    d = d0 ++ kvs.
Proof.
  revert d0. induction tags as [|c tags IH]; intros d0 Hl ks Hks Hnd Hdisj.
  - simpl in Hl. injection Hl as <-. exists []. split; [constructor|].
    by rewrite app_nil_r.
  - apply loop_cons in Hl as (k & v & Hk & Hv & Hl).
    simpl in Hks. rewrite Hk in Hks.
    destruct (mapM _ tags) as [ks'|e] eqn:Hks'; [|done].
    injection Hks as <-. apply NoDup_cons in Hnd as [Hk0 Hnd].
    assert (Hset : Dict.setitem k v d0 = d0 ++ [(k, v)]).
    { assert (Hkd : k ∉ Dict.keys d0) by (apply Hdisj, elem_of_cons; by left).
      clear -Hkd. unfold Dict.keys in Hkd.
      induction d0 as [|[k1 v1] r IHr]; simpl; [done|].
      rewrite fmap_cons, not_elem_of_cons in Hkd. destruct Hkd as [Hne Hr].
      rewrite decide_False by done. simpl. f_equal. by apply IHr. }
    rewrite Hset in Hl.
    destruct (IH _ Hl ks' eq_refl Hnd) as (kvs & Hkvs & ->).
    + intros k' Hk'. unfold Dict.keys. rewrite fmap_app, elem_of_app.
      intros [Hin|Hin].
      * apply (Hdisj k'); [apply elem_of_cons; by right|done].
      * simpl in Hin. apply list_elem_of_singleton in Hin. by subst.
    + exists ((k, v) :: kvs). split; [by constructor|]. by rewrite <- app_assoc.
Qed.

(** The returned mapping has an entry for a key exactly when some child
    has that key, and never more entries than there are children. *)
Theorem tag2dict_keys_are_child_keys (element : element) (d : Dict.t field) :
  tag2dict element camel_lookup xmlns = Ok d ->
  (forall k, k ∈ Dict.keys d <->
     exists c, c ∈ iterchildren element /\ tag_name camel_lookup xmlns c = Ok k) /\
  (forall k, Dict.get k d = None <->
     forall c, c ∈ iterchildren element -> tag_name camel_lookup xmlns c <> Ok k) /\
  (length d <= length (iterchildren element))%nat.
Proof.
  intros Hd. unfold tag2dict in Hd.
  pose proof (loop_keys _ _ _ _ _ Hd) as (ks & Hks & Hkeys).
  simpl in Hkeys.
  assert (Hmem : forall k, k ∈ Dict.keys d <->
     exists c, c ∈ iterchildren element /\ tag_name camel_lookup xmlns c = Ok k).
  { intros k. rewrite Hkeys, first_occurrences_elem, (mapM_elem _ _ _ k Hks).
    split; [by intros [? _]|]. intros ?. split; [done|apply not_elem_of_nil]. }
  split; [exact Hmem|]. split.
  - intros k. rewrite dict_get_None_keys, Hmem. split.
    + intros Hno c Hc Hk. apply Hno. by exists c.
    + intros Hno (c & Hc & Hk). by apply (Hno c).
  - assert (Hlen : forall seen l,
              (length (Dict.first_occurrences seen l) <= length l)%nat).
    { intros seen l. revert seen. induction l as [|k l IH]; intros seen; simpl; [lia|].
      destruct (decide _); simpl; [specialize (IH seen)|specialize (IH (seen ++ [k]))]; lia. }
    assert (Hd' : length d = length (Dict.keys d)) by (unfold Dict.keys; by rewrite length_fmap).
    rewrite Hd', Hkeys.
    apply mapM_Forall2, Forall2_length in Hks. rewrite Hks. apply Hlen.
Qed.

(** When the children have pairwise distinct keys, the returned mapping
    lists one item per child, in document order: the key and the value
    of that child. *)
Theorem tag2dict_distinct_keys (element : element) (d : Dict.t field) (ks : list string) :
  tag2dict element camel_lookup xmlns = Ok d ->
  mapM (tag_name camel_lookup xmlns) (iterchildren element) = Ok ks ->
  NoDup ks ->
  Forall2 (fun c kv => tag_name camel_lookup xmlns c = Ok kv.1 /\ value c = Ok kv.2)
    (iterchildren element) d /\
  Dict.keys d = ks /\
  length d = length (iterchildren element).
Proof.
  intros Hd Hks Hnd. unfold tag2dict in Hd.
  destruct (loop_distinct_keys _ _ _ Hd ks Hks Hnd) as (kvs & Hkvs & ->).
  { intros k _. apply not_elem_of_nil. }
  simpl. split; [done|]. split.
  - apply loop_keys in Hd as (ks' & Hks' & Hkeys). rewrite Hks in Hks'.
    injection Hks' as <-. simpl in Hkeys. rewrite Hkeys.
    apply first_occurrences_NoDup; [done|]. intros k _. apply not_elem_of_nil.
  - symmetry. by eapply Forall2_length.
Qed.

End Tag2DictKeys.

Lemma tag2dict_keys_are_child_keys_witness :
  Dict.get "serial_number"
    [("name", FStr "None"); ("ordinal_number", FInt 1);
     ("delay", FFloat (5, 1%nat)); ("sub", FNone)] = None /\
  Nat.le
    (length [("name", FStr "None"); ("ordinal_number", FInt 1);
             ("delay", FFloat (5, 1%nat)); ("sub", FNone)])
    (length (iterchildren Examples.device_example)).
Proof.
  pose proof (tag2dict_keys_are_child_keys None (Some "ns")
                Examples.device_example _ eq_refl) as (_ & Hnone & Hlen).
  split; [|exact Hlen].
  apply Hnone. intros c Hc. cbn in Hc.
  rewrite !elem_of_cons, elem_of_nil in Hc.
  repeat (destruct Hc as [->|Hc]; [vm_compute; discriminate|]).
  destruct Hc.
Defined.

Lemma tag2dict_distinct_keys_witness :
  Dict.keys [("name", FStr "QQQ"); ("ordinal_number", FInt 1)]
  = ["name"; "ordinal_number"].
Proof.
  refine (proj1 (proj2 (tag2dict_distinct_keys None None
            (Element "Device" ObjectifiedElement None
               [Element "Name" StringElement (Some "QQQ") [];
                Element "OrdinalNumber" IntElement (Some "1") []])
            [("name", FStr "QQQ"); ("ordinal_number", FInt 1)]
            ["name"; "ordinal_number"] eq_refl eq_refl _))).
  repeat constructor; rewrite ?elem_of_cons, ?elem_of_nil; intuition discriminate.
Defined.

(** ** [tag2dict]: the optional arguments *)

Section Tag2DictArguments.

Context `{FloatModel}.

Lemma loop_ext lookup1 xmlns1 lookup2 xmlns2 tags d0 :
  (forall c, c ∈ tags -> tag_name lookup1 xmlns1 c = tag_name lookup2 xmlns2 c) ->
  tag2dict_loop lookup1 xmlns1 tags d0 = tag2dict_loop lookup2 xmlns2 tags d0.
Proof.
  revert d0. induction tags as [|c tags IH]; intros d0 Heq; simpl; [done|].
  rewrite (Heq c) by (apply elem_of_cons; by left).
  destruct (tag_name lookup2 xmlns2 c) as [k|e]; simpl; [|done].
  destruct (value c) as [v|e]; simpl; [|done].
  apply IH. intros c' Hc'. apply Heq. apply elem_of_cons. by right.
Qed.

(** A lookup table that has no entry for the tag name of any child
    changes nothing, and neither does an empty namespace string: the
    result is the one obtained without these arguments.  In particular an
    empty table behaves like no table. *)
Theorem tag2dict_unused_arguments (element : element)
    (table : gmap string string) (xmlns : option string) :
  (forall c n, c ∈ iterchildren element ->
     strip_namespace xmlns (tag c) = Ok n -> table !! n = None) ->
  tag2dict element (Some table) xmlns = tag2dict element None xmlns /\
  tag2dict element (Some table) (Some EmptyString) = tag2dict element (Some table) None.
Proof.
  intros Hno. unfold tag2dict. split.
  - apply loop_ext. intros c Hc. unfold tag_name.
    destruct (strip_namespace xmlns (tag c)) as [n|e] eqn:Hn; simpl; [|done].
    unfold canonical_key. by rewrite (Hno c n Hc Hn).
  - by apply loop_ext.
Qed.

End Tag2DictArguments.

Lemma tag2dict_unused_arguments_witness :
  tag2dict Examples.device_example (Some ∅) (Some "ns")
  = tag2dict Examples.device_example None (Some "ns").
Proof.
  refine (proj1 (tag2dict_unused_arguments Examples.device_example ∅ (Some "ns") _)).
  intros c n _ _. apply lookup_empty.
Defined.

(** ** The namespace pattern is not escaped *)

Lemma atoms_app (a b : string) : Re.atoms (a +:+ b) = Re.atoms a ++ Re.atoms b.
Proof. induction a as [|c a IH]; simpl; [done|]. by rewrite IH. Qed.

(** A dot in the namespace argument stands for any character: with the
    namespace [a.b], a tag in the namespace [acb] loses its prefix too,
    whatever the character [c] is (a newline apart). *)
Theorem strip_namespace_dot_matches_any (a b rest : string) (c : ascii) :
  Re.in_fragment (a +:+ "." +:+ b) = true ->
  is_newline c = false ->
  strip_namespace (Some (a +:+ "." +:+ b))
    ("{" +:+ a +:+ String c b +:+ "}" +:+ rest)
  = Ok rest.
Proof.
  intros Hx Hc. unfold strip_namespace.
  rewrite bool_decide_eq_false_2 by (by destruct a).
  unfold Re.sub_braced_prefix. rewrite Hx.
  change ("{" +:+ a +:+ String c b +:+ "}" +:+ rest)
    with (String "{" (a +:+ String c (b +:+ String "}" rest))).
  cbn [Re.match_at Re.atom_matches]. rewrite bool_decide_eq_true_2 by done.
  rewrite atoms_app, <- app_assoc, match_at_own_text.
  change ("." +:+ b) with (String "." b).
  cbn [Re.atoms app Re.match_at Re.atom_matches]. simpl (code "." =? 46)%N.
  cbn [Re.match_at Re.atom_matches]. rewrite Hc. simpl negb.
  rewrite match_at_own_text.
  cbn [Re.match_at Re.atom_matches]. by rewrite bool_decide_eq_true_2.
Qed.

Lemma strip_namespace_dot_matches_any_witness :
  strip_namespace (Some "http://a.b/c") "{http://aXb/c}Name" = Ok "Name".
Proof.
  exact (strip_namespace_dot_matches_any "http://a" "b/c" "Name" "X" eq_refl eq_refl).
Defined.

(** ** [_get_from_enum]: the default coercion *)

(** With the default coercion [str], resolving against an enumeration all
    of whose values are integers always fails for a value that is not
    already a member: the text of the value is never equal to an
    integer. *)
Theorem get_from_enum_str_never_finds_int (enum : EnumType) (value : pyval) :
  (forall m v, (m, v) ∈ enum_members enum -> exists z, v = VInt z) ->
  isinstance_enum value enum = false ->
  _get_from_enum value enum Py.str = Raise ValueError.
Proof.
  intros Hint Hi. unfold _get_from_enum. rewrite Hi. simpl.
  apply enum_call_no_member. intros [Hm|[m Hm]]; [done|].
  destruct (Hint _ _ Hm) as [z Hz]. discriminate Hz.
Qed.

(** With the coercion [int], a string that reads as the integer value of
    a member resolves to a member with that value. *)
Theorem get_from_enum_int_coercion (enum : EnumType) (s m : string) (z : Z) :
  int_of_str s = Ok z ->
  (m, VInt z) ∈ enum_members enum ->
  exists m', _get_from_enum (VStr s) enum Py.int = Ok (VMember (enum_name enum) m') /\
    (m', VInt z) ∈ enum_members enum.
Proof.
  intros Hs Hm. unfold _get_from_enum. simpl. rewrite Hs. simpl.
  destruct (enum_call_member enum (VInt z)) as (r & Hr & _ & Hor).
  { right. by exists m. }
  rewrite Hr. destruct Hor as [->|(m' & -> & Hm')].
  - unfold enum_call in Hr. simpl in Hr.
    destruct (list_find _ _) as [[i [m' w]]|] eqn:Hf; [|done]. discriminate Hr.
  - by exists m'.
Qed.

Lemma get_from_enum_str_never_finds_int_witness :
  _get_from_enum (VInt 1)
    {| enum_name := "MSLevel";
       enum_members := [("All", VInt 0); ("MS", VInt 1); ("MSMS", VInt 2)] |}
    Py.str
  = Raise ValueError.
Proof.
  apply get_from_enum_str_never_finds_int; [|reflexivity].
  intros m v Hm. cbn in Hm. rewrite !elem_of_cons, elem_of_nil in Hm.
  destruct Hm as [Hm|[Hm|[Hm|[]]]]; injection Hm as _ ->; eauto.
Defined.

Lemma get_from_enum_int_coercion_witness :
  exists m',
    _get_from_enum (VStr " 2 ")
      {| enum_name := "MSLevel";
         enum_members := [("All", VInt 0); ("MS", VInt 1); ("MSMS", VInt 2)] |}
      Py.int
    = Ok (VMember "MSLevel" m') /\
    (m', VInt 2) ∈ [("All", VInt 0); ("MS", VInt 1); ("MSMS", VInt 2)].
Proof.
  apply (get_from_enum_int_coercion
           {| enum_name := "MSLevel";
              enum_members := [("All", VInt 0); ("MS", VInt 1); ("MSMS", VInt 2)] |}
           " 2 " "MSMS" 2); [reflexivity|].
  cbn. rewrite !elem_of_cons. auto.
Defined.

(** ** Where the code departs from its description *)

(** C2.  The claim fails at a boolean leaf.  [lxml.objectify] gives
    [<Enabled>true</Enabled>] the class [BoolElement], which derives from
    [IntElement]; the child therefore takes the [int(tag.text)] branch
    and not the fallback, and [tag2dict] raises [ValueError] where the
    claim has the text passed through without error. *)
Lemma tag2dict_boolean_leaf_failing_input :
  isinstance BoolElement IntElement = true /\
  value (Element "Enabled" BoolElement (Some "true") []) = Raise ValueError /\
  tag2dict
    (Element "Device" ObjectifiedElement None
       [Element "Name" StringElement (Some "QQQ") [];
        Element "Enabled" BoolElement (Some "true") []])
    None None
  = Raise ValueError.
Proof. repeat split; reflexivity. Qed.

(** C7.  The claim fails at a namespace with a character that is special
    in a pattern.  With the namespace [urn:a+b], the pattern [^{urn:a+b}]
    asks for one or more [a] followed by [b]; the tag [{urn:a+b}Name]
    does not match, keeps its namespace, and the key is computed from
    the whole tag. *)
Lemma tag2dict_namespace_failing_input :
  strip_namespace (Some "urn:a+b") "{urn:a+b}Name" = Ok "{urn:a+b}Name" /\
  strip_namespace (Some "urn:a+b") "{urn:aab}Name" = Ok "Name" /\
  tag2dict
    (Element "{urn:a+b}Device" ObjectifiedElement None
       [Element "{urn:a+b}Name" StringElement (Some "QQQ") []])
    None (Some "urn:a+b")
  = Ok [(canonical_key None "{urn:a+b}Name", FStr "QQQ")].
Proof. repeat split; reflexivity. Qed.
